(** * WillItRainBack: the derived-metrics functions and the window selection
      of the [/api/willitrain] handler, embedded from [src/server.js] and
      [src/unnamed/part_000].

    Conventions of the embedding.
    - A JavaScript number is a value of [JS.num]: [NaN], the two infinities,
      or a finite value carried as a rational.  Addition, multiplication and
      division are the binary64 ones: the operands are taken to binary64 and
      the exact result is rounded to the nearest binary64 number, ties to
      even, with gradual underflow, and with overflow to an infinity
      ([JS.fl]).  A sample is written as a rational; one that is not a
      binary64 number, such as 0.1, enters the arithmetic as the nearest
      binary64 number, as the decimal literal of the provider's JSON does.
      Comparison is the IEEE one, false on [NaN]; samples and thresholds
      are compared as written, which is the order of their binary64 values
      for decimal literals of up to 15 significant digits.  The sign of zero
      is not tracked: the only divisors of the program are array lengths,
      hour counts and 10, which are never [-0].
    - Samples of the provider's hourly arrays are JSON numbers or [null];
      after [.map(Number)] they are finite, so a mapped array is a [list Q].
    - An instant ([Date]) is its [getTime()] value, an integer number of
      milliseconds; the provider's time strings are taken to denote valid
      instants.
    - Array indices are [Z], because the source computes with [-1]. *)

From Stdlib Require Import ZArith QArith Qround Qabs Qpower Qminmax.
From Stdlib Require Import List Ascii String DecimalString Bool Lia Lqa.
Import ListNotations.

Local Open Scope Z_scope.

(** ** The runtime: numbers, [Math], arrays *)

Module JS.

Inductive num : Type :=
| NaN
| NegInf
| Fin (q : Q)
| PosInf.

Definition of_Z (z : Z) : num := Fin (inject_Z z).

Definition Qltb (a b : Q) : bool := negb (Qle_bool b a).

(** [x < y], [x > y], [x >= y]: false as soon as one side is [NaN]. *)
Definition ltb (x y : num) : bool :=
  match x, y with
  | NaN, _ | _, NaN => false
  | _, NegInf => false
  | NegInf, _ => true
  | PosInf, _ => false
  | Fin _, PosInf => true
  | Fin a, Fin b => Qltb a b
  end.

Definition gtb (x y : num) : bool := ltb y x.

Definition leb (x y : num) : bool :=
  match x, y with
  | NaN, _ | _, NaN => false
  | NegInf, _ => true
  | _, PosInf => true
  | _, NegInf => false
  | PosInf, _ => false
  | Fin a, Fin b => Qle_bool a b
  end.

Definition geb (x y : num) : bool := leb y x.

(** *** Binary64

    The binary64 numbers are the [m * 2 ^ e] with [|m| < 2 ^ 53] and
    [e >= -1074], below [2 ^ 1024] in magnitude. *)

Definition pow2 (k : Z) : Q := (2 ^ k)%Q.

Definition representable (w : Q) : Prop :=
  exists m e, Z.abs m < 2 ^ 53 /\ -1074 <= e /\ (w == inject_Z m * pow2 e)%Q.

(** [floor (log2 a)], for a positive [a]. *)
Definition ilog2 (a : Q) : Z :=
  let k := Z.log2 (Qnum a) - Z.log2 (Zpos (Qden a)) in
  if Qle_bool (pow2 k) a then k else k - 1.

(** The nearest integer, a tie going to the even one. *)
Definition rne (t : Q) : Z :=
  let f := Qfloor t in
  match (t - inject_Z f ?= 1 # 2)%Q with
  | Lt => f
  | Gt => f + 1
  | Eq => if Z.even f then f else f + 1
  end.

(** The exponent of the last place of the binary64 numbers around a positive
    [a]: 52 below its own, and never below the subnormal one. *)
Definition quantum (a : Q) : Z := Z.max (-1074) (ilog2 a - 52).

(** [a] counted in units of its last place, and the nearest count. *)
Definition scaled (a : Q) : Q := (a / pow2 (quantum a))%Q.

Definition mantissa (a : Q) : Z := rne (scaled a).

Definition round_pos (a : Q) : Q :=
  (inject_Z (mantissa a) * pow2 (quantum a))%Q.

(** The nearest number of the binary64 grid, the exponent left unbounded
    above; the value is reduced, so that equal rationals give the same
    term. *)
Definition double (q : Q) : Q :=
  match (q ?= 0)%Q with
  | Eq => 0%Q
  | Gt => Qred (round_pos (Qred q))
  | Lt => Qred (- round_pos (Qred (- q)))
  end.

(** Rounding to binary64: what reaches [2 ^ 1024] overflows. *)
Definition fl (q : Q) : num :=
  let v := double q in
  if Qle_bool (pow2 1024) v then PosInf
  else if Qle_bool v (- pow2 1024) then NegInf
  else Fin v.

Definition add (x y : num) : num :=
  match x, y with
  | NaN, _ | _, NaN => NaN
  | PosInf, NegInf | NegInf, PosInf => NaN
  | PosInf, _ | _, PosInf => PosInf
  | NegInf, _ | _, NegInf => NegInf
  | Fin a, Fin b => fl (double a + double b)
  end.

(** The infinity of the sign of [q], or [NaN] for zero. *)
Definition signed_inf (q : Q) (pos neg : num) : num :=
  match (q ?= 0)%Q with
  | Eq => NaN
  | Gt => pos
  | Lt => neg
  end.

Definition mul (x y : num) : num :=
  match x, y with
  | NaN, _ | _, NaN => NaN
  | Fin a, Fin b => fl (double a * double b)
  | Fin a, PosInf | PosInf, Fin a => signed_inf (double a) PosInf NegInf
  | Fin a, NegInf | NegInf, Fin a => signed_inf (double a) NegInf PosInf
  | PosInf, PosInf | NegInf, NegInf => PosInf
  | PosInf, NegInf | NegInf, PosInf => NegInf
  end.

(** Division; a zero divisor is [+0]. *)
Definition div (x y : num) : num :=
  match x, y with
  | NaN, _ | _, NaN => NaN
  | Fin a, Fin b =>
      if Qeq_bool (double b) 0 then signed_inf (double a) PosInf NegInf
      else fl (double a / double b)
  | Fin _, _ => Fin 0
  | PosInf, Fin b => if Qltb (double b) 0 then NegInf else PosInf
  | NegInf, Fin b => if Qltb (double b) 0 then PosInf else NegInf
  | _, _ => NaN
  end.

(** [Math.round]: the nearest integer, a tie going towards [+Infinity]. *)
Definition round_half_up (q : Q) : Z := Qfloor (q + (1 # 2))%Q.

Definition Math_round (x : num) : num :=
  match x with
  | Fin q => of_Z (round_half_up q)
  | _ => x
  end.

(** [Math.min(a, b)] and [Math.max(a, b)]. *)
Definition Math_min (x y : num) : num :=
  match x, y with
  | NaN, _ | _, NaN => NaN
  | _, _ => if ltb y x then y else x
  end.

Definition Math_max (x y : num) : num :=
  match x, y with
  | NaN, _ | _, NaN => NaN
  | _, _ => if ltb x y then y else x
  end.

(** [Math.max(...xs)] and [Math.min(...xs)]: [-Infinity] and [+Infinity] on
    the empty argument list. *)
Definition Math_max_of (xs : list Q) : num :=
  fold_left (fun m x => Math_max m (Fin x)) xs NegInf.

Definition Math_min_of (xs : list Q) : num :=
  fold_left (fun m x => Math_min m (Fin x)) xs PosInf.

(** [xs.reduce((a, b) => a + b, 0)] *)
Definition sum (xs : list Q) : num :=
  fold_left (fun a b => add a (Fin b)) xs (Fin 0).

Definition length {A} (xs : list A) : Z := Z.of_nat (List.length xs).

(** [xs[i]]: [None] stands for [undefined]. *)
Definition get {A} (xs : list A) (i : Z) : option A :=
  if i <? 0 then None else nth_error xs (Z.to_nat i).

(** [xs.findIndex(p)] *)
Fixpoint findIndex_from {A} (p : A -> bool) (xs : list A) (i : Z) : Z :=
  match xs with
  | [] => -1
  | x :: xs' => if p x then i else findIndex_from p xs' (i + 1)
  end.

Definition findIndex {A} (p : A -> bool) (xs : list A) : Z :=
  findIndex_from p xs 0.

(** [xs.slice(s, e)]: a negative bound counts from the end, and both bounds
    are clipped to the array. *)
Definition clip_index (len i : Z) : Z :=
  if i <? 0 then Z.max (len + i) 0 else Z.min i len.

Definition slice {A} (xs : list A) (s e : Z) : list A :=
  let k := clip_index (length xs) s in
  let final := clip_index (length xs) e in
  firstn (Z.to_nat (final - k)) (skipn (Z.to_nat k) xs).

(** A string is falsy when it is [undefined] or empty. *)
Definition truthy (s : option string) : bool :=
  match s with
  | Some s => negb (String.eqb s "")
  | None => false
  end.

(** The UTC calendar fields of an instant ([getUTCFullYear],
    [getUTCMonth], [getUTCDate]), by the usual count of days in 400-year
    eras starting on 1 March. *)
Definition ms_per_day : Z := 86400000.

Definition civil_of_days (days : Z) : Z * Z * Z :=
  let z := days + 719468 in
  let era := z / 146097 in
  let doe := z - era * 146097 in
  let yoe := (doe - doe / 1460 + doe / 36524 - doe / 146096) / 365 in
  let doy := doe - (365 * yoe + yoe / 4 - yoe / 100) in
  let mp := (5 * doy + 2) / 153 in
  let d := doy - (153 * mp + 2) / 5 + 1 in
  let m := if mp <? 10 then mp + 3 else mp - 9 in
  let y := yoe + era * 400 in
  (if m <=? 2 then y + 1 else y, m, d).

Definition days_of_civil (y m d : Z) : Z :=
  let y' := if m <=? 2 then y - 1 else y in
  let era := y' / 400 in
  let yoe := y' - era * 400 in
  let doy := (153 * (if 2 <? m then m - 3 else m + 9) + 2) / 5 + d - 1 in
  let doe := yoe * 365 + yoe / 4 - yoe / 100 + doy in
  era * 146097 + doe - 719468.

Definition getUTCFullYear (t : Z) : Z := fst (fst (civil_of_days (t / ms_per_day))).
Definition getUTCMonth (t : Z) : Z := snd (fst (civil_of_days (t / ms_per_day))) - 1.
Definition getUTCDate (t : Z) : Z := snd (civil_of_days (t / ms_per_day)).

(** [String(n)] for an integer. *)
Definition String_ (n : Z) : string := NilZero.string_of_int (Z.to_int n).

(** [s.padStart(2, '0')] *)
Definition padStart2 (s : string) : string :=
  match String.length s with
  | O => "00"
  | S O => String "0" s
  | _ => s
  end.

End JS.

Import JS.

(** ** Metric evaluators ([src/unnamed/part_000], lines 14-62) *)

Definition calculateRainProbability
    (precipitation : list Q) (humidity : option (list Q)) (hours : Z) : num :=
  let rainHours := length (filter (fun p => Qltb (1 # 10) p) precipitation) in
  let baseProbability := mul (div (of_Z rainHours) (of_Z hours)) (of_Z 100) in
  let humidityBonus :=
    match humidity with
    | Some humidity =>
        if 0 <? length humidity then
          let avgHumidity := div (sum humidity) (of_Z (length humidity)) in
          if gtb avgHumidity (of_Z 80) then 10
          else if gtb avgHumidity (of_Z 60) then 5 else 0
        else 0
    | None => 0
    end in
  Math_min (of_Z 100) (Math_round (add baseProbability (of_Z humidityBonus))).

Inductive temp_status := muy_baja | baja | normal | alta | muy_alta.

Record temperature_data := {
  t_average : num;
  t_max : num;
  t_min : num;
  t_status : temp_status
}.

(** [Math.round(x * 10) / 10] *)
Definition round1 (x : num) : num := div (Math_round (mul x (of_Z 10))) (of_Z 10).

Definition evaluateTemperature (temperatures : list Q) : temperature_data :=
  let avgTemp := div (sum temperatures) (of_Z (length temperatures)) in
  let maxTemp := Math_max_of temperatures in
  let minTemp := Math_min_of temperatures in
  let tempStatus :=
    if gtb maxTemp (of_Z 35) then muy_alta
    else if ltb minTemp (of_Z 0) then muy_baja
    else if gtb maxTemp (of_Z 30) then alta
    else if ltb minTemp (of_Z 5) then baja
    else normal in
  {| t_average := round1 avgTemp;
     t_max := round1 maxTemp;
     t_min := round1 minTemp;
     t_status := tempStatus |}.

Inductive wind_status := Poco | Comun | Mucho.

Record wind_data := {
  w_average : num;
  w_max : num;
  w_status : wind_status
}.

Definition evaluateWind (windSpeeds : list Q) : wind_data :=
  let avgWind := div (sum windSpeeds) (of_Z (length windSpeeds)) in
  let maxWind := Math_max_of windSpeeds in
  let windStatus :=
    if gtb maxWind (of_Z 20) then Mucho
    else if gtb avgWind (of_Z 10) then Comun
    else Poco in
  {| w_average := round1 avgWind;
     w_max := round1 maxWind;
     w_status := windStatus |}.

(** ** The [/api/willitrain] handler *)

(** What the handler takes from its surroundings: the parsing builtins and
    the clock.  [parseInt10 s] is
    [parseInt(s, 10)], [None] standing for [NaN]; the value is the exact
    integer, the rounding of a long digit string to binary64 being immaterial
    once clamped to [1, 168].  [Date_parse s] is [new Date(s).getTime()],
    [None] standing for [NaN], the time value of an invalid date. *)
Record runtime := {
  parseInt10 : string -> option Z;
  parseFloat : string -> num;
  Date_parse : string -> option Z;
  now : Z
}.

(** [req.query]; every value is a string when present. *)
Record query := {
  q_lat : option string;
  q_lon : option string;
  q_date : option string;
  q_hours : option string;
  q_threshold : option string
}.

(** The search parameters of the outbound call. *)
Record provider_request := {
  latitude : string;
  longitude : string;
  hourly_vars : string;
  timezone : string;
  start_date : option string;
  end_date : option string
}.

(** The provider's answer: an [hourly] object of parallel arrays, any of
    which may be missing; a sample is a number or [null]. *)
Record hourly_data := {
  time : option (list Z);
  precipitation : option (list (option Q));
  temperature_2m : option (list (option Q));
  relative_humidity_2m : option (list (option Q));
  wind_speed_10m : option (list (option Q));
  wind_direction_10m : option (list (option Q))
}.

Record payload := { hourly : option hourly_data }.

(** The outbound call either throws ([fetch] rejects, or the body is not
    JSON), answers with a non-success status, or yields the payload. *)
Inductive fetch_outcome :=
| Rejected
| NotOk (code : Z)
| Ok (data : payload).

(** [Number(v)] on a sample: [Number(null)] is [0]. *)
Definition Number (v : option Q) : Q :=
  match v with
  | Some q => q
  | None => 0%Q
  end.

(** A field of a reported point. *)
Inductive value := Undefined | Null | Num (q : Q).

Definition elem (xs : list Q) (i : Z) : value :=
  match get xs i with
  | Some q => Num q
  | None => Undefined
  end.

Definition elem_or_null (xs : option (list Q)) (i : Z) : value :=
  match xs with
  | Some xs => elem xs i
  | None => Null
  end.

Definition value_geb (v : value) (x : num) : bool :=
  match v with
  | Num q => geb (Fin q) x
  | _ => false
  end.

Record point := {
  p_time : Z;
  p_precipitation : value;
  p_temperature : value;
  p_humidity : value;
  p_windSpeed : value;
  p_windDirection : value
}.

Record specific_date := {
  sd_requestedDate : Z;
  sd_willRain : bool;
  sd_rainProbability : option num;
  sd_precipitationMm : Q;
  sd_temperature : option Q;
  sd_temperatureData : option temperature_data;
  sd_windData : option wind_data;
  sd_thresholdMm : num;
  sd_contextHours : list point
}.

Record next_hours := {
  nh_willRain : bool;
  nh_rainProbability : option num;
  nh_maxPrecipitationMm : Q;
  nh_temperatureData : option temperature_data;
  nh_windData : option wind_data;
  nh_hoursAnalyzed : Z;
  nh_thresholdMm : num;
  nh_points : list point
}.

Inductive body :=
| Error (msg : string)
| SpecificDate (r : specific_date)
| NextHours (r : next_hours).

Record response := { status : Z; json : body }.

Definition error (code : Z) (msg : string) : response :=
  {| status := code; json := Error msg |}.

Definition ok (b : body) : response := {| status := 200; json := b |}.

(** A run of the handler: it answers at once, or makes the outbound call
    and answers from its outcome. *)
Inductive step :=
| Respond (r : response)
| Fetch (req : provider_request) (k : fetch_outcome -> response).

(** [parseInt(hours, 10) || 12]: [NaN] and [0] are falsy. *)
Definition or_int (x : option Z) (d : Z) : Z :=
  match x with
  | Some 0 | None => d
  | Some n => n
  end.

(** [parseFloat(threshold) || 0.1] *)
Definition falsy (x : num) : bool :=
  match x with
  | NaN => true
  | Fin q => Qeq_bool q 0
  | _ => false
  end.

Definition or_num (x d : num) : num := if falsy x then d else x.

Definition default {A} (d : A) (x : option A) : A :=
  match x with
  | Some a => a
  | None => d
  end.

(** Lines 108-110 of [part_000], 57-59 of [server.js]. *)
Definition hoursNum (rt : runtime) (q : query) : Z :=
  let hours := default "12"%string (q_hours q) in
  Z.max 1 (Z.min 168 (or_int (parseInt10 rt hours) 12)).

Definition threshNum (rt : runtime) (q : query) : num :=
  let threshold := default "0.1"%string (q_threshold q) in
  or_num (parseFloat rt threshold) (Fin (1 # 10)).

(** Lines 159-164 of [part_000], 104-109 of [server.js]: the loop over
    [i], with its state [minDiff], [idx]. *)
Fixpoint nearest (targetDate : Z) (times : list Z) (i : Z)
    (minDiff : num) (idx : Z) : Z :=
  match times with
  | [] => idx
  | t :: rest =>
      let diff := Z.abs (t - targetDate) in
      if ltb (of_Z diff) minDiff
      then nearest targetDate rest (i + 1) (of_Z diff) i
      else nearest targetDate rest (i + 1) minDiff idx
  end.

(** Lines 156-165 of [part_000], 101-110 of [server.js]. *)
Definition idx (times : list Z) (targetDate : Z) : Z :=
  let idx := findIndex (fun t => t =? targetDate) times in
  if idx =? -1 then nearest targetDate times 0 PosInf (-1) else idx.

(** Lines 172-174 of [part_000], 115-117 of [server.js]. *)
Definition window : Z := 6.

Definition start (idx : Z) : Z := Z.max 0 (idx - window).

Definition end_ (times : list Z) (idx : Z) : Z :=
  Z.min (length times) (idx + window + 1).

(** Lines 211-213 of [part_000], 132-134 of [server.js]. *)
Definition startIdx (times : list Z) (now : Z) : Z :=
  let startIdx := findIndex (fun t => now <=? t) times in
  if startIdx =? -1 then length times - 1 else startIdx.

(** [for (let i = s; i < e; i++)] *)
Definition range (s e : Z) : list Z :=
  map (fun k => s + Z.of_nat k) (seq 0 (Z.to_nat (e - s))).

(** [xs.map((x, i) => f x i)] *)
Fixpoint mapi_from {A B} (f : A -> Z -> B) (xs : list A) (i : Z) : list B :=
  match xs with
  | [] => []
  | x :: xs' => f x i :: mapi_from f xs' (i + 1)
  end.

Definition mapi {A B} (f : A -> Z -> B) (xs : list A) : list B :=
  mapi_from f xs 0.

(** [points.reduce((m, p) => (p.precipitation > m ? p.precipitation : m), 0)] *)
Definition maxPrecip (points : list point) : Q :=
  fold_left
    (fun m p =>
       match p_precipitation p with
       | Num q => if Qltb m q then q else m
       | _ => m
       end)
    points 0%Q.

(** [points.some(p => p.precipitation >= threshNum)] *)
Definition some_reaches (threshNum : num) (points : list point) : bool :=
  existsb (fun p => value_geb (p_precipitation p) threshNum) points.

(** Lines 128-130 of [part_000], 77-79 of [server.js]: [yyyy-mm-dd]. *)
Definition utc_day (d : Z) : string :=
  let yyyy := String_ (getUTCFullYear d) in
  let mm := padStart2 (String_ (getUTCMonth d + 1)) in
  let dd := padStart2 (String_ (getUTCDate d)) in
  (yyyy ++ "-" ++ mm ++ "-" ++ dd)%string.

Definition mk_request (q : query) (vars : string) (day : option string)
    : provider_request :=
  {| latitude := default ""%string (q_lat q);
     longitude := default ""%string (q_lon q);
     hourly_vars := vars;
     timezone := "auto";
     start_date := day;
     end_date := day |}.

(** *** The handler of [src/unnamed/part_000] (lines 106-252) *)

Module Part000.

Definition vars : string :=
  "precipitation,temperature_2m,relative_humidity_2m,wind_speed_10m,wind_direction_10m".

(** Lines 154-208: the answer for a requested date. *)
Definition specific (threshNum : num) (targetDate : Z) (times : list Z)
    (precs temps : list Q) (humidity : option (list Q)) (windSpeed : list Q)
    (windDirection : option (list Q)) : specific_date :=
  let idx := idx times targetDate in
  let precip := default 0%Q (get precs idx) in
  let temp := default 0%Q (get temps idx) in
  let willRain := geb (Fin precip) threshNum in
  let start := start idx in
  let end_ := end_ times idx in
  let contextPrecs := slice precs start end_ in
  let contextTemps := slice temps start end_ in
  let contextHumidity := option_map (fun h => slice h start end_) humidity in
  let contextWindSpeed := slice windSpeed start end_ in
  let rainProbability :=
    calculateRainProbability contextPrecs contextHumidity (end_ - start) in
  let temperatureData := evaluateTemperature contextTemps in
  let windData := evaluateWind contextWindSpeed in
  let points :=
    map (fun i =>
           {| p_time := nth (Z.to_nat i) times 0;
              p_precipitation := elem precs i;
              p_temperature := elem temps i;
              p_humidity := elem_or_null humidity i;
              p_windSpeed := elem windSpeed i;
              p_windDirection := elem_or_null windDirection i |})
        (range start end_) in
  {| sd_requestedDate := targetDate;
     sd_willRain := willRain;
     sd_rainProbability := Some rainProbability;
     sd_precipitationMm := precip;
     sd_temperature := Some temp;
     sd_temperatureData := Some temperatureData;
     sd_windData := Some windData;
     sd_thresholdMm := threshNum;
     sd_contextHours := points |}.

(** Lines 210-247: the answer for the next [hoursNum] hours. *)
Definition forward (now hoursNum : Z) (threshNum : num) (times : list Z)
    (precs temps : list Q) (humidity : option (list Q)) (windSpeed : list Q)
    (windDirection : option (list Q)) : next_hours :=
  let startIdx := startIdx times now in
  let sliceTimes := slice times startIdx (startIdx + hoursNum) in
  let slicePrecs := slice precs startIdx (startIdx + hoursNum) in
  let sliceTemps := slice temps startIdx (startIdx + hoursNum) in
  let sliceHumidity :=
    option_map (fun h => slice h startIdx (startIdx + hoursNum)) humidity in
  let sliceWindSpeed := slice windSpeed startIdx (startIdx + hoursNum) in
  let points :=
    mapi (fun t i =>
            {| p_time := t;
               p_precipitation := elem slicePrecs i;
               p_temperature := elem sliceTemps i;
               p_humidity := elem_or_null sliceHumidity i;
               p_windSpeed := elem sliceWindSpeed i;
               p_windDirection := elem_or_null windDirection (startIdx + i) |})
         sliceTimes in
  let maxPrecip := maxPrecip points in
  let willRain := some_reaches threshNum points in
  let rainProbability :=
    calculateRainProbability slicePrecs sliceHumidity hoursNum in
  let temperatureData := evaluateTemperature sliceTemps in
  let windData := evaluateWind sliceWindSpeed in
  {| nh_willRain := willRain;
     nh_rainProbability := Some rainProbability;
     nh_maxPrecipitationMm := maxPrecip;
     nh_temperatureData := Some temperatureData;
     nh_windData := Some windData;
     nh_hoursAnalyzed := length points;
     nh_thresholdMm := threshNum;
     nh_points := points |}.

(** Lines 143-153 and the choice of the mode. *)
Definition analyse (rt : runtime) (q : query) (targetDate : option Z)
    (data : payload) : response :=
  match hourly data with
  | Some h =>
      match time h, precipitation h, temperature_2m h, wind_speed_10m h with
      | Some times, Some precipitation, Some temperature, Some wind =>
          let precs := map Number precipitation in
          let temps := map Number temperature in
          let humidity := option_map (map Number) (relative_humidity_2m h) in
          let windSpeed := map Number wind in
          let windDirection := option_map (map Number) (wind_direction_10m h) in
          match targetDate with
          | Some targetDate =>
              ok (SpecificDate
                    (specific (threshNum rt q) targetDate times precs temps
                       humidity windSpeed windDirection))
          | None =>
              ok (NextHours
                    (forward (now rt) (hoursNum rt q) (threshNum rt q) times
                       precs temps humidity windSpeed windDirection))
          end
      | _, _, _, _ => error 502 "unexpected weather data format"
      end
  | None => error 502 "unexpected weather data format"
  end.

(** Lines 139-141 and the [catch]. *)
Definition after_fetch (rt : runtime) (q : query) (targetDate : option Z)
    (out : fetch_outcome) : response :=
  match out with
  | Rejected => error 500 "internal error"
  | NotOk code => error code "weather provider error"
  | Ok data => analyse rt q targetDate data
  end.

Definition willitrain (rt : runtime) (q : query) : step :=
  if negb (truthy (q_lat q)) || negb (truthy (q_lon q))
  then Respond (error 400 "lat and lon are required")
  else if truthy (q_date q) then
    match Date_parse rt (default ""%string (q_date q)) with
    | None => Respond (error 400 "invalid date")
    | Some d =>
        Fetch (mk_request q vars (Some (utc_day d)))
              (after_fetch rt q (Some d))
    end
  else Fetch (mk_request q vars None) (after_fetch rt q None).

End Part000.

(** *** The handler of [src/server.js] (lines 55-153) *)

Module ServerJs.

Definition vars : string := "precipitation".

Definition bare_point (t : Z) (precipitation : value) : point :=
  {| p_time := t;
     p_precipitation := precipitation;
     p_temperature := Undefined;
     p_humidity := Undefined;
     p_windSpeed := Undefined;
     p_windDirection := Undefined |}.

(** Lines 99-129. *)
Definition specific (threshNum : num) (targetDate : Z) (times : list Z)
    (precs : list Q) : specific_date :=
  let idx := idx times targetDate in
  let precip := default 0%Q (get precs idx) in
  let willRain := geb (Fin precip) threshNum in
  let start := start idx in
  let end_ := end_ times idx in
  let points :=
    map (fun i => bare_point (nth (Z.to_nat i) times 0) (elem precs i))
        (range start end_) in
  {| sd_requestedDate := targetDate;
     sd_willRain := willRain;
     sd_rainProbability := None;
     sd_precipitationMm := precip;
     sd_temperature := None;
     sd_temperatureData := None;
     sd_windData := None;
     sd_thresholdMm := threshNum;
     sd_contextHours := points |}.

(** Lines 131-148. *)
Definition forward (now hoursNum : Z) (threshNum : num) (times : list Z)
    (precs : list Q) : next_hours :=
  let startIdx := startIdx times now in
  let sliceTimes := slice times startIdx (startIdx + hoursNum) in
  let slicePrecs := slice precs startIdx (startIdx + hoursNum) in
  let points := mapi (fun t i => bare_point t (elem slicePrecs i)) sliceTimes in
  let maxPrecip := maxPrecip points in
  let willRain := some_reaches threshNum points in
  {| nh_willRain := willRain;
     nh_rainProbability := None;
     nh_maxPrecipitationMm := maxPrecip;
     nh_temperatureData := None;
     nh_windData := None;
     nh_hoursAnalyzed := length points;
     nh_thresholdMm := threshNum;
     nh_points := points |}.

Definition analyse (rt : runtime) (q : query) (targetDate : option Z)
    (data : payload) : response :=
  match hourly data with
  | Some h =>
      match time h, precipitation h with
      | Some times, Some precipitation =>
          let precs := map Number precipitation in
          match targetDate with
          | Some targetDate =>
              ok (SpecificDate (specific (threshNum rt q) targetDate times precs))
          | None =>
              ok (NextHours
                    (forward (now rt) (hoursNum rt q) (threshNum rt q) times precs))
          end
      | _, _ => error 502 "unexpected weather data format"
      end
  | None => error 502 "unexpected weather data format"
  end.

Definition after_fetch (rt : runtime) (q : query) (targetDate : option Z)
    (out : fetch_outcome) : response :=
  match out with
  | Rejected => error 500 "internal error"
  | NotOk code => error code "weather provider error"
  | Ok data => analyse rt q targetDate data
  end.

Definition willitrain (rt : runtime) (q : query) : step :=
  if negb (truthy (q_lat q)) || negb (truthy (q_lon q))
  then Respond (error 400 "lat and lon are required")
  else if truthy (q_date q) then
    match Date_parse rt (default ""%string (q_date q)) with
    | None => Respond (error 400 "invalid date")
    | Some d =>
        Fetch (mk_request q vars (Some (utc_day d)))
              (after_fetch rt q (Some d))
    end
  else Fetch (mk_request q vars None) (after_fetch rt q None).

End ServerJs.

(** The answer of a run and the outbound calls it made, given the outcome of
    the call when there is one. *)
Definition run (s : step) (out : fetch_outcome)
    : response * list provider_request :=
  match s with
  | Respond r => (r, [])
  | Fetch req k => (k out, [req])
  end.

(** *** What the answers of [server.js] keep of the answers of [part_000]

    The earlier version reports, of each point, the instant and the
    precipitation, and leaves out the probability, the temperature and the
    wind. *)

Definition is_error (b : body) : bool :=
  match b with
  | Error _ => true
  | _ => false
  end.

Definition basic_point (p : point) : point :=
  ServerJs.bare_point (p_time p) (p_precipitation p).

Definition basic_specific (r : specific_date) : specific_date :=
  {| sd_requestedDate := sd_requestedDate r;
     sd_willRain := sd_willRain r;
     sd_rainProbability := None;
     sd_precipitationMm := sd_precipitationMm r;
     sd_temperature := None;
     sd_temperatureData := None;
     sd_windData := None;
     sd_thresholdMm := sd_thresholdMm r;
     sd_contextHours := map basic_point (sd_contextHours r) |}.

Definition basic_next_hours (r : next_hours) : next_hours :=
  {| nh_willRain := nh_willRain r;
     nh_rainProbability := None;
     nh_maxPrecipitationMm := nh_maxPrecipitationMm r;
     nh_temperatureData := None;
     nh_windData := None;
     nh_hoursAnalyzed := nh_hoursAnalyzed r;
     nh_thresholdMm := nh_thresholdMm r;
     nh_points := map basic_point (nh_points r) |}.

Definition basic_body (b : body) : body :=
  match b with
  | Error msg => Error msg
  | SpecificDate r => SpecificDate (basic_specific r)
  | NextHours r => NextHours (basic_next_hours r)
  end.

(** The same outbound call, asking for the variables [vars]. *)
Definition with_vars (vars : string) (req : provider_request)
    : provider_request :=
  {| latitude := latitude req;
     longitude := longitude req;
     hourly_vars := vars;
     timezone := timezone req;
     start_date := start_date req;
     end_date := end_date req |}.

(** The guards of line 143 of [part_000] and of line 92 of [server.js],
    negated: the payload has the hourly arrays the version reads. *)
Definition present {A} (v : option A) : bool :=
  match v with
  | Some _ => true
  | None => false
  end.

Definition complete_extended (data : payload) : bool :=
  match hourly data with
  | Some h =>
      present (time h) && present (precipitation h)
      && present (temperature_2m h) && present (wind_speed_10m h)
  | None => false
  end.

Definition complete_basic (data : payload) : bool :=
  match hourly data with
  | Some h => present (time h) && present (precipitation h)
  | None => false
  end.

(** *** The proxy [/api/weather] (lines 70-94 of [part_000], 19-43 of
    [server.js], the same text in both)

    The provider's JSON is passed through as it is, so its type [J] is
    left open. *)

Module Weather.

Record query := {
  q_lat : option string;
  q_lon : option string;
  q_start : option string;
  q_end : option string
}.

Inductive outcome (J : Type) :=
| Rejected
| NotOk (code : Z)
| Ok (data : J).

Arguments Rejected {J}.
Arguments NotOk {J} code.
Arguments Ok {J} data.

Inductive body (J : Type) :=
| Error (msg : string)
| Passthrough (data : J).

Arguments Error {J} msg.
Arguments Passthrough {J} data.

Record response (J : Type) := { status : Z; json : body J }.

Arguments status {J} r.
Arguments json {J} r.

Definition error {J} (code : Z) (msg : string) : response J :=
  {| status := code; json := Error msg |}.

Inductive step (J : Type) :=
| Respond (r : response J)
| Fetch (req : provider_request) (k : outcome J -> response J).

Arguments Respond {J} r.
Arguments Fetch {J} req k.

(** [if (v) params.set(key, v)] *)
Definition when_truthy (v : option string) : option string :=
  if truthy v then v else None.

Definition weather {J} (q : query) : step J :=
  if negb (truthy (q_lat q)) || negb (truthy (q_lon q))
  then Respond (error 400 "lat and lon are required")
  else
    Fetch
      {| latitude := default ""%string (q_lat q);
         longitude := default ""%string (q_lon q);
         hourly_vars := "precipitation,temperature_2m";
         timezone := "auto";
         start_date := when_truthy (q_start q);
         end_date := when_truthy (q_end q) |}
      (fun out =>
         match out with
         | Rejected => error 500 "internal error"
         | NotOk code => error code "weather provider error"
         | Ok data => {| status := 200; json := Passthrough data |}
         end).

Definition run {J} (s : step J) (out : outcome J)
    : response J * list provider_request :=
  match s with
  | Respond r => (r, [])
  | Fetch req k => (k out, [req])
  end.

End Weather.

(** ** A reference runtime

    Decimal renderings of the parsing builtins, exact on the strings they
    accept; the theorems below hold for every runtime, this one serves the
    worked examples. *)

Module Reference.

Definition is_space (c : ascii) : bool :=
  let n := Z.of_nat (nat_of_ascii c) in
  ((9 <=? n) && (n <=? 13)) || (n =? 32).

Fixpoint trim_start (s : string) : string :=
  match s with
  | String c rest => if is_space c then trim_start rest else s
  | EmptyString => s
  end.

Definition digit (c : ascii) : option Z :=
  let n := Z.of_nat (nat_of_ascii c) in
  if (48 <=? n) && (n <=? 57) then Some (n - 48) else None.

(** The longest prefix of digits: its value, its length, and the rest. *)
Fixpoint digits (s : string) (acc : Z) (count : nat) : Z * nat * string :=
  match s with
  | String c rest =>
      match digit c with
      | Some d => digits rest (10 * acc + d) (S count)
      | None => (acc, count, s)
      end
  | EmptyString => (acc, count, s)
  end.

(** An optional sign and the rest. *)
Definition sign (s : string) : Z * string :=
  match s with
  | String "-" rest => (-1, rest)
  | String "+" rest => (1, rest)
  | _ => (1, s)
  end.

Definition parseInt10 (s : string) : option Z :=
  let '(sg, s) := sign (trim_start s) in
  let '(n, count, _) := digits s 0 O in
  match count with
  | O => None
  | _ => Some (sg * n)
  end.

Definition exponent (s : string) : Z :=
  match s with
  | String c rest =>
      if (Ascii.eqb c "e" || Ascii.eqb c "E")%bool then
        let '(sg, rest) := sign rest in
        let '(e, count, _) := digits rest 0 O in
        match count with
        | O => 0
        | _ => sg * e
        end
      else 0
  | EmptyString => 0
  end.

Definition pow10 (e : Z) : Q :=
  if e <? 0 then (1 # Z.to_pos (10 ^ (- e)))%Q else inject_Z (10 ^ e).

Definition parseFloat (s : string) : num :=
  let '(sg, s) := sign (trim_start s) in
  if String.prefix "Infinity" s then (if sg <? 0 then NegInf else PosInf)
  else
    let '(ip, n1, s) := digits s 0 O in
    let '(fp, n2, s) :=
      match s with
      | String "." rest => digits rest 0 O
      | _ => (0, O, s)
      end in
    match n1, n2 with
    | O, O => NaN
    | _, _ =>
        let mantissa :=
          (inject_Z (ip * 10 ^ Z.of_nat n2 + fp) * pow10 (- Z.of_nat n2))%Q in
        Fin (Qred (inject_Z sg * mantissa * pow10 (exponent s)))
    end.

Definition two_digits (s : string) : option (Z * string) :=
  match s with
  | String a (String b rest) =>
      match digit a, digit b with
      | Some x, Some y => Some (10 * x + y, rest)
      | _, _ => None
      end
  | _ => None
  end.

Definition expect (c : ascii) (s : string) : option string :=
  match s with
  | String c' rest => if Ascii.eqb c c' then Some rest else None
  | EmptyString => None
  end.

Definition bind {A B} (x : option A) (f : A -> option B) : option B :=
  match x with
  | Some a => f a
  | None => None
  end.

Notation "' p <- x ;; k" := (bind x (fun p => k))
  (at level 61, p pattern, x at next level, right associativity).

(** Only the form [YYYY-MM-DDTHH:mm:ssZ], with fields in range. *)
Definition Date_parse (s : string) : option Z :=
  '(c, s) <- two_digits s ;;
  '(yy, s) <- two_digits s ;;
  's <- expect "-" s ;;
  '(m, s) <- two_digits s ;;
  's <- expect "-" s ;;
  '(d, s) <- two_digits s ;;
  's <- expect "T" s ;;
  '(hh, s) <- two_digits s ;;
  's <- expect ":" s ;;
  '(mi, s) <- two_digits s ;;
  's <- expect ":" s ;;
  '(ss, s) <- two_digits s ;;
  's <- expect "Z" s ;;
  let y := 100 * c + yy in
  let '(y', m', d') := civil_of_days (days_of_civil y m d) in
  let in_range :=
    (y' =? y) && (m' =? m) && (d' =? d)
    && (hh <=? 23) && (mi <=? 59) && (ss <=? 59) && String.eqb s "" in
  if in_range
  then Some (days_of_civil y m d * ms_per_day + ((hh * 60 + mi) * 60 + ss) * 1000)
  else None.

(** A runtime whose clock reads [now]. *)
Definition runtime_at (now : Z) : runtime :=
  Build_runtime parseInt10 parseFloat Date_parse now.

End Reference.

(** ** The notions of the specification *)

Module Spec.

(** The exact sum and the exact arithmetic mean. *)
Definition total (xs : list Q) : Q := fold_right Qplus 0%Q xs.

Definition mean (xs : list Q) : Q := (total xs / inject_Z (length xs))%Q.

(** Rounding to the nearest integer, a tie going away from zero. *)
Definition round_half_away (q : Q) : Z :=
  if Qlt_le_dec q 0 then - Qfloor (- q + (1 # 2))%Q else Qfloor (q + (1 # 2))%Q.

(** Rounding to one decimal with the integer rounding [r]. *)
Definition to_1_decimal (r : Q -> Z) (q : Q) : Q :=
  (inject_Z (r (q * inject_Z 10)) / inject_Z 10)%Q.

(** The count of samples strictly greater than 0.1 mm. *)
Definition rainHours (precipitation : list Q) : Z :=
  length (filter (fun p => if Qlt_le_dec (1 # 10) p then true else false)
            precipitation).

(** +10 if the mean is above 80, +5 if it is above 60, nothing otherwise or
    when the humidity is absent or empty. *)
Definition humidityBonus (humidity : option (list Q)) : Q :=
  match humidity with
  | Some hs =>
      match hs with
      | [] => 0%Q
      | _ :: _ =>
          if Qlt_le_dec 80 (mean hs) then 10%Q
          else if Qlt_le_dec 60 (mean hs) then 5%Q else 0%Q
      end
  | None => 0%Q
  end.

(** [round(min(100, baseProbability + humidityBonus))] *)
Definition rainProbability (precipitation : list Q)
    (humidity : option (list Q)) (hours : Z) : Z :=
  let baseProbability :=
    (inject_Z (rainHours precipitation) / inject_Z hours * 100)%Q in
  round_half_away (Qmin 100 (baseProbability + humidityBonus humidity)).


(** *** The same notions evaluated in binary64 *)

(** The sum accumulated from the first sample to the last, every addition
    rounded. *)
Definition total64 (xs : list Q) : num :=
  fold_right (fun x acc => add acc (Fin x)) (Fin 0) (rev xs).

Definition mean64 (xs : list Q) : num := div (total64 xs) (of_Z (length xs)).

Definition humidityBonus64 (humidity : option (list Q)) : Z :=
  match humidity with
  | Some hs =>
      match hs with
      | [] => 0
      | _ :: _ =>
          if gtb (mean64 hs) (of_Z 80) then 10
          else if gtb (mean64 hs) (of_Z 60) then 5 else 0
      end
  | None => 0
  end.

(** The nearest integer, a tie going up. *)
Definition half_up (y : Q) : Z :=
  let f := Qfloor y in
  if Qlt_le_dec (y - inject_Z f) (1 # 2) then f else f + 1.

(** An integer rounding applied to a number; the infinities and [NaN] are
    kept. *)
Definition integer (r : Q -> Z) (x : num) : num :=
  match x with
  | Fin q => of_Z (r q)
  | _ => x
  end.


(** A statistic [s] reported to one decimal: [round(s * 10) / 10]. *)
Definition tenths64 (s : num) : num :=
  div (integer half_up (mul s (of_Z 10))) (of_Z 10).

(** [m] is the greatest, respectively the least, element of [xs]. *)
Definition is_max (xs : list Q) (m : Q) : Prop :=
  In m xs /\ forall x, In x xs -> (x <= m)%Q.

Definition is_min (xs : list Q) (m : Q) : Prop :=
  In m xs /\ forall x, In x xs -> (m <= x)%Q.

(** Clamping to [1, 168]. *)
Definition clamp (n : Z) : Z := Z.max 1 (Z.min 168 n).

(** The samples of the index range [s, e): [xs[s]], ..., [xs[e - 1]]. *)
Definition samples {A} (xs : list A) (s e : Z) : list (option A) :=
  map (get xs) (range s e).

(** [i] is the first index of [times] at which the distance to [target]
    is the least. *)
Definition first_nearest (times : list Z) (target : Z) (i : Z) : Prop :=
  exists t,
    get times i = Some t /\
    (forall j u, get times j = Some u ->
       Z.abs (t - target) <= Z.abs (u - target)) /\
    (forall j u, j < i -> get times j = Some u ->
       Z.abs (t - target) < Z.abs (u - target)).

(** [i] is the first index of [times] whose instant is not before [now]. *)
Definition first_from (times : list Z) (now : Z) (i : Z) : Prop :=
  exists t,
    get times i = Some t /\ now <= t /\
    forall j u, j < i -> get times j = Some u -> u < now.

(** The instants of [times] grow strictly with the index. *)
Definition increasing (times : list Z) : Prop :=
  forall j k u v, j < k -> get times j = Some u -> get times k = Some v -> u < v.

(** The precipitation at index [i] of the series reaches the threshold. *)
Definition reaches (precs : list Q) (threshNum : num) (i : Z) : Prop :=
  exists p, get precs i = Some p /\ geb (Fin p) threshNum = true.

End Spec.

(** ** Binary64 rounding *)

(** *** Powers of two *)

Lemma pow2_pos (k : Z) : (0 < pow2 k)%Q.
Proof. apply Qpower_0_lt. reflexivity. Qed.

Lemma pow2_add (a b : Z) : (pow2 (a + b) == pow2 a * pow2 b)%Q.
Proof. apply Qpower_plus. discriminate. Qed.

Lemma pow2_le (a b : Z) : a <= b -> (pow2 a <= pow2 b)%Q.
Proof. intros H. apply Qpower_le_compat_l; [exact H | discriminate]. Qed.

Lemma pow2_lt (a b : Z) : a < b -> (pow2 a < pow2 b)%Q.
Proof. intros H. apply Qpower_lt_compat_l; [exact H | reflexivity]. Qed.

Lemma pow2_lt_inv (a b : Z) : (pow2 a < pow2 b)%Q -> a < b.
Proof. intros H. apply (Qpower_lt_compat_l_inv 2); [exact H | reflexivity]. Qed.

Lemma pow2_succ (k : Z) : (pow2 (k + 1) == 2 * pow2 k)%Q.
Proof. rewrite pow2_add. change (pow2 1) with 2%Q. ring. Qed.

Lemma pow2_inject (k : Z) : 0 <= k -> (pow2 k == inject_Z (2 ^ k))%Q.
Proof. intros H. symmetry. now apply Zpower_Qpower. Qed.

Lemma pow2_sub (a b : Z) : (pow2 (a - b) == pow2 a / pow2 b)%Q.
Proof.
  unfold Z.sub. rewrite pow2_add. unfold pow2 at 2. rewrite Qpower_opp.
  reflexivity.
Qed.

(** The integer logarithm *)

Lemma Zlog2_bounds (n : Z) :
  0 < n -> (pow2 (Z.log2 n) <= inject_Z n < pow2 (Z.log2 n + 1))%Q.
Proof.
  intros Hn. pose proof (Z.log2_spec n Hn) as [Hlo Hhi].
  pose proof (Z.log2_nonneg n).
  rewrite !pow2_inject by lia. rewrite <- Zle_Qle, <- Zlt_Qlt.
  split; [exact Hlo |]. now rewrite <- Z.add_1_r in Hhi.
Qed.

Lemma ilog2_spec (a : Q) :
  (0 < a)%Q -> (pow2 (ilog2 a) <= a < pow2 (ilog2 a + 1))%Q.
Proof.
  intros Ha.
  assert (Hn : 0 < Qnum a) by (unfold Qlt in Ha; simpl in Ha; lia).
  pose proof (Zlog2_bounds (Qnum a) Hn) as [Hn1 Hn2].
  pose proof (Zlog2_bounds (Zpos (Qden a)) ltac:(lia)) as [Hd1 Hd2].
  set (ln := Z.log2 (Qnum a)) in *. set (ld := Z.log2 (Zpos (Qden a))) in *.
  assert (E : (a * inject_Z (Zpos (Qden a)) == inject_Z (Qnum a))%Q).
  { destruct a as [n d]. cbn [Qnum Qden]. rewrite (Qmake_Qdiv n d).
    field. discriminate. }
  assert (Eup : (pow2 (ln - ld + 1) * pow2 ld == pow2 (ln + 1))%Q)
    by (rewrite <- pow2_add; f_equiv; lia).
  assert (Elow : (pow2 (ln - ld - 1) * pow2 (ld + 1) == pow2 ln)%Q)
    by (rewrite <- pow2_add; f_equiv; lia).
  pose proof (pow2_pos ld). pose proof (pow2_pos (ld + 1)).
  pose proof (pow2_pos (ln - ld + 1)). pose proof (pow2_pos (ln - ld - 1)).
  set (A := inject_Z (Qnum a)) in *. set (D := inject_Z (Zpos (Qden a))) in *.
  assert (Hup : (a < pow2 (ln - ld + 1))%Q) by nra.
  assert (Hlow : (pow2 (ln - ld - 1) <= a)%Q) by nra.
  unfold ilog2. fold ln ld.
  destruct (Qle_bool (pow2 (ln - ld)) a) eqn:Hk.
  - apply Qle_bool_iff in Hk. split; [exact Hk | exact Hup].
  - split; [exact Hlow |].
    replace (ln - ld - 1 + 1) with (ln - ld) by lia.
    apply Qnot_le_lt. intros Hc. apply Qle_bool_iff in Hc. congruence.
Qed.

Lemma ilog2_unique (a : Q) (k : Z) :
  (pow2 k <= a < pow2 (k + 1))%Q -> ilog2 a = k.
Proof.
  intros [Hlo Hhi].
  assert (Ha : (0 < a)%Q) by (eapply Qlt_le_trans; [apply pow2_pos | exact Hlo]).
  destruct (ilog2_spec a Ha) as [Hlo' Hhi'].
  assert (ilog2 a < k + 1)
    by (apply pow2_lt_inv; eapply Qle_lt_trans; eauto).
  assert (k < ilog2 a + 1)
    by (apply pow2_lt_inv; eapply Qle_lt_trans; eauto).
  lia.
Qed.

Lemma ilog2_le (a b : Q) : (0 < a)%Q -> (a <= b)%Q -> ilog2 a <= ilog2 b.
Proof.
  intros Ha Hab.
  assert (Hb : (0 < b)%Q) by (eapply Qlt_le_trans; eauto).
  destruct (ilog2_spec a Ha) as [Hlo _].
  destruct (ilog2_spec b Hb) as [_ Hhi].
  assert (ilog2 a < ilog2 b + 1).
  { apply pow2_lt_inv. eapply Qle_lt_trans; [exact Hlo |].
    eapply Qle_lt_trans; eauto. }
  lia.
Qed.

(** *** The nearest integer, ties to even *)

Lemma rne_cases (t : Q) :
  (inject_Z (Qfloor t) <= t < inject_Z (Qfloor t) + 1)%Q
  /\ ((rne t = Qfloor t /\ (t - inject_Z (Qfloor t) <= 1 # 2)%Q)
      \/ (rne t = Qfloor t + 1 /\ (1 # 2 <= t - inject_Z (Qfloor t))%Q)).
Proof.
  pose proof (Qfloor_le t) as Hlo. pose proof (Qlt_floor t) as Hhi.
  rewrite inject_Z_plus in Hhi. change (inject_Z 1) with 1%Q in Hhi.
  split; [split; assumption |].
  unfold rne. cbv zeta.
  destruct (Qcompare_spec (t - inject_Z (Qfloor t)) (1 # 2)) as [E | E | E].
  - destruct (Z.even (Qfloor t)); [left | right]; (split; [reflexivity | lra]).
  - left. split; [reflexivity | lra].
  - right. split; [reflexivity | lra].
Qed.

Lemma Zle_or_succ (n f : Z) : n <= f \/ f + 1 <= n.
Proof. lia. Qed.

Lemma rne_nearest (t : Q) (n : Z) :
  (Qabs (t - inject_Z (rne t)) <= Qabs (t - inject_Z n))%Q.
Proof.
  destruct (rne_cases t) as [[Hlo Hhi] Hc].
  set (f := Qfloor t) in *.
  assert (Hn : (inject_Z n <= inject_Z f \/ inject_Z f + 1 <= inject_Z n)%Q).
  { destruct (Zle_or_succ n f) as [H | H]; [left | right].
    - now rewrite <- Zle_Qle.
    - rewrite Zle_Qle, inject_Z_plus in H. exact H. }
  apply Qabs_Qle_condition.
  destruct Hn as [Hn | Hn].
  - rewrite (Qabs_pos (t - inject_Z n)) by lra.
    destruct Hc as [[-> H] | [-> H]]; [lra |].
    rewrite inject_Z_plus. change (inject_Z 1) with 1%Q. lra.
  - rewrite (Qabs_neg (t - inject_Z n)) by lra.
    destruct Hc as [[-> H] | [-> H]]; [lra |].
    rewrite inject_Z_plus. change (inject_Z 1) with 1%Q. lra.
Qed.

Lemma rne_Z (z : Z) : rne (inject_Z z) = z.
Proof.
  pose proof (rne_nearest (inject_Z z) z) as H.
  assert (E : (inject_Z z - inject_Z z == 0)%Q) by ring.
  rewrite E in H. change (Qabs 0) with 0%Q in H.
  pose proof (Qabs_nonneg (inject_Z z - inject_Z (rne (inject_Z z)))) as H0.
  assert (H1 : (Qabs (inject_Z z - inject_Z (rne (inject_Z z))) == 0)%Q)
    by lra.
  apply Qabs_Qle_condition in H. 
  assert (E2 : (inject_Z (rne (inject_Z z)) == inject_Z z)%Q) by lra.
  unfold Qeq in E2. simpl in E2. lia.
Qed.

Lemma rne_comp : Proper (Qeq ==> eq) rne.
Proof.
  intros a b E. unfold rne. cbv zeta.
  rewrite (Qfloor_comp _ _ E).
  assert (E' : (a - inject_Z (Qfloor b) == b - inject_Z (Qfloor b))%Q)
    by now rewrite E.
  now rewrite E'.
Qed.

#[local] Existing Instance rne_comp.

Lemma rne_le (a b : Q) : (a <= b)%Q -> rne a <= rne b.
Proof.
  intros Hab.
  destruct (Z.le_gt_cases (rne a) (rne b)) as [H | Hgt]; [exact H | exfalso].
  pose proof (rne_nearest a (rne b)) as Ha.
  pose proof (rne_nearest b (rne a)) as Hb.
  rewrite Zlt_Qlt in Hgt.
  set (x := inject_Z (rne a)) in *. set (y := inject_Z (rne b)) in *.
  assert (Hmid_a : (x + y <= 2 * a)%Q).
  { apply Qabs_Qle_condition in Ha.
    destruct (Qlt_le_dec a y) as [Hay | Hay].
    - rewrite (Qabs_neg (a - y)) in Ha by lra. lra.
    - rewrite (Qabs_pos (a - y)) in Ha by lra. lra. }
  assert (Hmid_b : (2 * b <= x + y)%Q).
  { apply Qabs_Qle_condition in Hb.
    destruct (Qlt_le_dec x b) as [Hxb | Hxb].
    - rewrite (Qabs_pos (b - x)) in Hb by lra. lra.
    - rewrite (Qabs_neg (b - x)) in Hb by lra. lra. }
  assert (E : (a == b)%Q) by lra.
  assert (E' : rne a = rne b) by now rewrite E.
  unfold x, y in Hgt. rewrite E' in Hgt. lra.
Qed.

Lemma rne_nonneg (t : Q) : (0 <= t)%Q -> 0 <= rne t.
Proof.
  intros H. rewrite <- (rne_Z 0). now apply rne_le.
Qed.

(** *** The nearest binary64 number *)

Lemma representable_opp (w : Q) : representable w -> representable (- w).
Proof.
  intros (m & e & Hm & He & E). exists (- m), e.
  split; [lia |]. split; [exact He |].
  rewrite E, inject_Z_opp. ring.
Qed.

Lemma representable_0 : representable 0.
Proof. exists 0, 0. repeat split; lia. Qed.

Lemma quantum_ge (a : Q) : -1074 <= quantum a /\ ilog2 a - 52 <= quantum a.
Proof. unfold quantum. lia. Qed.

Lemma Qabs_scale (x p : Q) : (0 < p)%Q -> (Qabs (x * p) == Qabs x * p)%Q.
Proof.
  intros Hp. rewrite Qabs_Qmult. now rewrite (Qabs_pos p) by lra.
Qed.

Section RoundPos.

Variable a : Q.
Hypothesis Ha : (0 < a)%Q.

Lemma round_pos_eq : round_pos a = (inject_Z (mantissa a) * pow2 (quantum a))%Q.
Proof. reflexivity. Qed.

Lemma scaled_eq : ((scaled a) * pow2 (quantum a) == a)%Q.
Proof.
  unfold scaled. field. pose proof (pow2_pos (quantum a)). lra.
Qed.

Lemma scaled_dist (n : Z) :
  (Qabs (a - inject_Z n * pow2 (quantum a)) == Qabs ((scaled a) - inject_Z n) * pow2 (quantum a))%Q.
Proof.
  rewrite <- Qabs_scale by apply pow2_pos.
  apply Qabs_wd. rewrite <- scaled_eq at 1. ring.
Qed.

Lemma round_pos_nearest_multiple (n : Z) :
  (Qabs (a - round_pos a) <= Qabs (a - inject_Z n * pow2 (quantum a)))%Q.
Proof.
  rewrite round_pos_eq, !scaled_dist.
  apply Qmult_le_compat_r; [apply rne_nearest |].
  apply Qlt_le_weak, pow2_pos.
Qed.

Lemma scaled_lt : ((scaled a) < pow2 53)%Q.
Proof.
  destruct (ilog2_spec a Ha) as [_ Hhi].
  pose proof (quantum_ge a) as [_ Hq].
  assert (Hle : (pow2 (ilog2 a + 1) <= pow2 (53 + (quantum a)))%Q) by (apply pow2_le; lia).
  rewrite (pow2_add 53 (quantum a)) in Hle.
  apply (Qmult_lt_r _ _ (pow2 (quantum a))); [apply pow2_pos |].
  rewrite scaled_eq. lra.
Qed.

Lemma mantissa_range : 0 <= (mantissa a) <= 2 ^ 53.
Proof.
  split.
  - apply rne_nonneg. apply (Qmult_le_r _ _ (pow2 (quantum a))); [apply pow2_pos |].
    rewrite scaled_eq. lra.
  - rewrite <- (rne_Z (2 ^ 53)). apply rne_le.
    rewrite <- pow2_inject by lia. apply Qlt_le_weak, scaled_lt.
Qed.

Lemma normal_ge : -1074 < (quantum a) -> (pow2 ((quantum a) + 52) <= a)%Q /\ 2 ^ 52 <= (mantissa a).
Proof.
  intros He.
  assert (E : (quantum a) = ilog2 a - 52) by (unfold quantum in *; lia).
  destruct (ilog2_spec a Ha) as [Hlo _].
  replace (ilog2 a) with ((quantum a) + 52) in Hlo by lia.
  split; [exact Hlo |].
  rewrite <- (rne_Z (2 ^ 52)). apply rne_le.
  rewrite <- pow2_inject by lia.
  rewrite Z.add_comm, (pow2_add 52 (quantum a)) in Hlo.
  apply (Qmult_le_r _ _ (pow2 (quantum a))); [apply pow2_pos |].
  rewrite scaled_eq. lra.
Qed.

Lemma round_pos_representable : representable (round_pos a).
Proof.
  rewrite round_pos_eq. pose proof mantissa_range as [Hlo Hhi].
  pose proof (quantum_ge a) as [He _].
  destruct (Z.eq_dec (mantissa a) (2 ^ 53)) as [E | Hne].
  - exists (2 ^ 52), ((quantum a) + 1). split; [reflexivity |]. split; [lia |].
    rewrite E, pow2_succ.
    change (inject_Z (2 ^ 53)) with (2 * inject_Z (2 ^ 52))%Q. ring.
  - exists (mantissa a), (quantum a). split; [lia |]. split; [exact He | reflexivity].
Qed.

Lemma round_pos_nonneg : (0 <= round_pos a)%Q.
Proof.
  rewrite round_pos_eq. pose proof mantissa_range as [Hlo _].
  rewrite (Zle_Qle 0 (mantissa a)) in Hlo. pose proof (pow2_pos (quantum a)).
  change (inject_Z 0) with 0%Q in Hlo. nra.
Qed.

Lemma round_pos_nearest (w : Q) :
  representable w -> (Qabs (a - round_pos a) <= Qabs (a - w))%Q.
Proof.
  intros (m' & e' & Hm' & He' & Ew).
  destruct (Qlt_le_dec 0 w) as [Hw | Hw].
  - destruct (Z_le_gt_dec (quantum a) e') as [Hee | Hee].
    + (* [w] is a multiple of the quantum *)
      assert (E : (w == inject_Z (m' * 2 ^ (e' - (quantum a))) * pow2 (quantum a))%Q).
      { rewrite Ew, inject_Z_mult, <- pow2_inject by lia.
        rewrite <- Qmult_assoc, <- pow2_add. f_equiv. f_equiv. lia. }
      rewrite E. apply round_pos_nearest_multiple.
    + (* [w] lies below the binade of [a] *)
      destruct (normal_ge ltac:(lia)) as [Hlo _].
      assert (Hwlt : (w < pow2 ((quantum a) + 52))%Q).
      { rewrite Ew.
        assert (Hm2 : (inject_Z m' < pow2 53)%Q).
        { rewrite pow2_inject by lia. rewrite <- Zlt_Qlt. lia. }
        assert (Hpe : (pow2 e' * pow2 53 <= pow2 ((quantum a) + 52))%Q).
        { rewrite <- pow2_add. apply pow2_le. lia. }
        pose proof (pow2_pos e'). pose proof (pow2_pos 53). nra. }
      eapply Qle_trans; [apply (round_pos_nearest_multiple (2 ^ 52)) |].
      rewrite <- pow2_inject, <- pow2_add by lia.
      replace (52 + (quantum a)) with ((quantum a) + 52) by lia.
      rewrite !Qabs_pos by lra. lra.
  - eapply Qle_trans; [apply (round_pos_nearest_multiple 0) |].
    change (inject_Z 0) with 0%Q.
    rewrite !Qabs_pos by lra. lra.
Qed.

End RoundPos.

Lemma double_comp : Proper (Qeq ==> eq) double.
Proof.
  intros x y E. unfold double. rewrite E.
  destruct (y ?= 0)%Q; [reflexivity | |].
  - assert (E' : (- x == - y)%Q) by now rewrite E.
    now rewrite (Qred_complete _ _ E').
  - now rewrite (Qred_complete _ _ E).
Qed.

#[local] Existing Instance double_comp.

Lemma double_pos (q : Q) :
  (0 < q)%Q -> (double q == round_pos (Qred q))%Q /\ (0 < Qred q)%Q.
Proof.
  intros Hq. unfold double.
  destruct (Qcompare_spec q 0) as [E | H | H]; [lra | lra |].
  split; [apply Qred_correct | now rewrite Qred_correct].
Qed.

Lemma double_neg (q : Q) :
  (q < 0)%Q -> (double q == - round_pos (Qred (- q)))%Q /\ (0 < Qred (- q))%Q.
Proof.
  intros Hq. unfold double.
  destruct (Qcompare_spec q 0) as [E | H | H]; [lra | | lra].
  split; [apply Qred_correct | rewrite Qred_correct; lra].
Qed.

Lemma double_0 : double 0 = 0%Q.
Proof. reflexivity. Qed.

Lemma double_zero (q : Q) : (q == 0)%Q -> double q = 0%Q.
Proof. intros E. now rewrite E. Qed.

Lemma double_opp (q : Q) : (double (- q) == - double q)%Q.
Proof.
  destruct (Qcompare_spec q 0) as [E | H | H].
  - rewrite E. reflexivity.
  - destruct (double_neg q H) as [E1 _].
    destruct (double_pos (- q) ltac:(lra)) as [E2 _].
    rewrite E1, E2. ring.
  - destruct (double_pos q H) as [E1 _].
    destruct (double_neg (- q) ltac:(lra)) as [E2 _].
    rewrite E1, E2.
    assert (E : (- - q == q)%Q) by ring.
    now rewrite (Qred_complete _ _ E).
Qed.

Lemma double_representable (q : Q) : representable (double q).
Proof.
  destruct (Qcompare_spec q 0) as [E | H | H].
  - rewrite (double_zero q E). apply representable_0.
  - destruct (double_neg q H) as [E Hp].
    destruct (round_pos_representable _ Hp) as (m & e & Hm & He & Ev).
    exists (- m), e. split; [lia |]. split; [exact He |].
    rewrite E, Ev, inject_Z_opp. ring.
  - destruct (double_pos q H) as [E Hp].
    destruct (round_pos_representable _ Hp) as (m & e & Hm & He & Ev).
    exists m, e. split; [exact Hm |]. split; [exact He |].
    now rewrite E, Ev.
Qed.

(** [double q] is a binary64 number nearest to [q]. *)
Lemma double_nearest (q w : Q) :
  representable w -> (Qabs (q - double q) <= Qabs (q - w))%Q.
Proof.
  intros Hw. destruct (Qcompare_spec q 0) as [E | H | H].
  - rewrite (double_zero q E), E.
    assert (E0 : (0 - 0 == 0)%Q) by ring. rewrite E0.
    apply Qabs_nonneg.
  - destruct (double_neg q H) as [E Hp].
    pose proof (round_pos_nearest _ Hp (- w) (representable_opp _ Hw)) as Hn.
    rewrite (Qred_correct (- q)) in Hn at 1 3.
    rewrite E.
    assert (E1 : (q - - round_pos (Qred (- q))
                  == - (- q - round_pos (Qred (- q))))%Q) by ring.
    assert (E2 : (q - w == - (- q - - w))%Q) by ring.
    rewrite E1, E2, !Qabs_opp. exact Hn.
  - destruct (double_pos q H) as [E Hp].
    pose proof (round_pos_nearest _ Hp w Hw) as Hn.
    rewrite (Qred_correct q) in Hn at 1 3.
    now rewrite E.
Qed.

Lemma double_exact (w : Q) : representable w -> (double w == w)%Q.
Proof.
  intros Hw. pose proof (double_nearest w w Hw) as H.
  assert (E : (w - w == 0)%Q) by ring. rewrite E in H.
  change (Qabs 0) with 0%Q in H.
  apply Qabs_Qle_condition in H. lra.
Qed.

Lemma double_idempotent (q : Q) : (double (double q) == double q)%Q.
Proof. apply double_exact, double_representable. Qed.

Lemma representable_Z (z : Z) : Z.abs z < 2 ^ 53 -> representable (inject_Z z).
Proof.
  intros Hz. exists z, 0. split; [exact Hz |]. split; [lia |].
  change (pow2 0) with 1%Q. ring.
Qed.

Lemma representable_pow2 (k : Z) : -1074 <= k -> representable (pow2 k).
Proof.
  intros Hk. exists 1, k. split; [reflexivity |]. split; [exact Hk |].
  change (inject_Z 1) with 1%Q. ring.
Qed.

(** Rounding is monotone. *)
Lemma double_le (x y : Q) : (x <= y)%Q -> (double x <= double y)%Q.
Proof.
  intros Hxy.
  destruct (Qlt_le_dec (double y) (double x)) as [Hgt | H]; [exfalso | exact H].
  pose proof (double_nearest x (double y) (double_representable y)) as Hx.
  pose proof (double_nearest y (double x) (double_representable x)) as Hy.
  set (u := double x) in *. set (v := double y) in *.
  assert (Hmid_x : (u + v <= 2 * x)%Q).
  { apply Qabs_Qle_condition in Hx.
    destruct (Qlt_le_dec x v) as [Hc | Hc].
    - rewrite (Qabs_neg (x - v)) in Hx by lra. lra.
    - rewrite (Qabs_pos (x - v)) in Hx by lra. lra. }
  assert (Hmid_y : (2 * y <= u + v)%Q).
  { apply Qabs_Qle_condition in Hy.
    destruct (Qlt_le_dec u y) as [Hc | Hc].
    - rewrite (Qabs_pos (y - u)) in Hy by lra. lra.
    - rewrite (Qabs_neg (y - u)) in Hy by lra. lra. }
  assert (E : (x == y)%Q) by lra.
  assert (E' : double x = double y) by now rewrite E.
  unfold u, v in Hgt. rewrite E' in Hgt. lra.
Qed.

Lemma double_nonneg (q : Q) : (0 <= q)%Q -> (0 <= double q)%Q.
Proof.
  intros H. rewrite <- double_0. now apply double_le.
Qed.

Lemma double_nonpos (q : Q) : (q <= 0)%Q -> (double q <= 0)%Q.
Proof.
  intros H. rewrite <- double_0. now apply double_le.
Qed.

Lemma double_Z (z : Z) : Z.abs z < 2 ^ 53 -> (double (inject_Z z) == inject_Z z)%Q.
Proof. intros H. now apply double_exact, representable_Z. Qed.

(** Bounds by a binary64 number are kept. *)
Lemma double_le_bound (q w : Q) :
  representable w -> (q <= w)%Q -> (double q <= w)%Q.
Proof.
  intros Hw H. rewrite <- (double_exact w Hw). now apply double_le.
Qed.

Lemma double_ge_bound (q w : Q) :
  representable w -> (w <= q)%Q -> (w <= double q)%Q.
Proof.
  intros Hw H. rewrite <- (double_exact w Hw). now apply double_le.
Qed.

(** ** Numbers and [Math] *)

Lemma Qltb_lt (a b : Q) : Qltb a b = true <-> (a < b)%Q.
Proof.
  unfold Qltb. rewrite negb_true_iff, <- not_true_iff_false, Qle_bool_iff.
  split; [apply Qnot_le_lt | apply Qlt_not_le].
Qed.

Lemma Qltb_ge (a b : Q) : Qltb a b = false <-> (b <= a)%Q.
Proof.
  unfold Qltb. rewrite negb_false_iff. apply Qle_bool_iff.
Qed.

Lemma Qltb_dec (a b : Q) :
  Qltb a b = if Qlt_le_dec a b then true else false.
Proof.
  destruct (Qlt_le_dec a b) as [H | H].
  - now apply Qltb_lt.
  - now apply Qltb_ge.
Qed.

Lemma Qltb_inject_Z (a b : Z) : Qltb (inject_Z a) (inject_Z b) = (a <? b).
Proof.
  destruct (Z.ltb_spec a b) as [H | H].
  - apply Qltb_lt. now rewrite <- Zlt_Qlt.
  - apply Qltb_ge. now rewrite <- Zle_Qle.
Qed.

Lemma ltb_of_Z (a b : Z) : ltb (of_Z a) (of_Z b) = (a <? b).
Proof. apply Qltb_inject_Z. Qed.

Lemma leb_of_Z (a b : Z) : leb (of_Z a) (of_Z b) = (a <=? b).
Proof.
  cbn [leb of_Z]. destruct (Z.leb_spec a b) as [H | H].
  - apply Qle_bool_iff. now rewrite <- Zle_Qle.
  - apply not_true_iff_false. rewrite Qle_bool_iff, <- Zle_Qle. lia.
Qed.

Lemma Math_min_of_Z (a b : Z) : Math_min (of_Z a) (of_Z b) = of_Z (Z.min a b).
Proof.
  unfold Math_min, of_Z. change (ltb (Fin (inject_Z b)) (Fin (inject_Z a)))
    with (ltb (of_Z b) (of_Z a)). rewrite ltb_of_Z.
  destruct (Z.ltb_spec b a) as [H | H].
  - now rewrite Z.min_r by lia.
  - now rewrite Z.min_l by lia.
Qed.

Lemma round_half_up_le (a b : Q) :
  (a <= b)%Q -> round_half_up a <= round_half_up b.
Proof.
  intros H. apply Qfloor_resp_le. lra.
Qed.


Lemma round_half_up_Z (z : Z) : round_half_up (inject_Z z) = z.
Proof.
  unfold round_half_up.
  assert (H1 : z <= Qfloor (inject_Z z + (1 # 2))).
  { rewrite <- (Qfloor_Z z) at 1. apply Qfloor_resp_le. lra. }
  assert (H2 : Qfloor (inject_Z z + (1 # 2)) < z + 1).
  { rewrite Zlt_Qlt. eapply Qle_lt_trans; [apply Qfloor_le |].
    rewrite inject_Z_plus. change (inject_Z 1) with 1%Q. lra. }
  lia.
Qed.

Lemma round_half_away_nonneg (q : Q) :
  (0 <= q)%Q -> Spec.round_half_away q = round_half_up q.
Proof.
  intros H. unfold Spec.round_half_away.
  destruct (Qlt_le_dec q 0) as [H' | _]; [lra | reflexivity].
Qed.

(** The nearest integer with ties going up is [floor (y + 1/2)]. *)
Lemma half_up_spec (y : Q) : Spec.half_up y = round_half_up y.
Proof.
  unfold Spec.half_up, round_half_up. cbv zeta.
  pose proof (Qfloor_le y) as Hlo. pose proof (Qlt_floor y) as Hhi.
  rewrite inject_Z_plus in Hhi. change (inject_Z 1) with 1%Q in Hhi.
  set (f := Qfloor y) in *.
  destruct (Qlt_le_dec (y - inject_Z f) (1 # 2)) as [H | H].
  - assert (H1 : f <= Qfloor (y + (1 # 2))).
    { rewrite <- (Qfloor_Z f). apply Qfloor_resp_le. lra. }
    assert (H2 : Qfloor (y + (1 # 2)) < f + 1).
    { rewrite Zlt_Qlt. eapply Qle_lt_trans; [apply Qfloor_le |].
      rewrite inject_Z_plus. change (inject_Z 1) with 1%Q. lra. }
    lia.
  - assert (H1 : f + 1 <= Qfloor (y + (1 # 2))).
    { rewrite <- (Qfloor_Z (f + 1)). apply Qfloor_resp_le.
      rewrite inject_Z_plus. change (inject_Z 1) with 1%Q. lra. }
    assert (H2 : Qfloor (y + (1 # 2)) < f + 2).
    { rewrite Zlt_Qlt. eapply Qle_lt_trans; [apply Qfloor_le |].
      rewrite inject_Z_plus. change (inject_Z 2) with 2%Q. lra. }
    lia.
Qed.

(** *** The order of numbers and the rounded operations *)

Lemma fl_comp (x y : Q) : (x == y)%Q -> fl x = fl y.
Proof. intros E. unfold fl. now rewrite (double_comp _ _ E). Qed.

Lemma fl_cases (q : Q) :
  (fl q = PosInf /\ (pow2 1024 <= double q)%Q)
  \/ (fl q = NegInf /\ (double q <= - pow2 1024)%Q)
  \/ (fl q = Fin (double q) /\ (- pow2 1024 < double q < pow2 1024)%Q).
Proof.
  unfold fl. cbv zeta.
  destruct (Qle_bool (pow2 1024) (double q)) eqn:E1.
  - left. split; [reflexivity | now apply Qle_bool_iff].
  - destruct (Qle_bool (double q) (- pow2 1024)) eqn:E2.
    + right; left. split; [reflexivity | now apply Qle_bool_iff].
    + right; right. split; [reflexivity |].
      split; apply Qnot_le_lt; intros H; apply Qle_bool_iff in H; congruence.
Qed.

Lemma fl_le (x y : Q) : (x <= y)%Q -> leb (fl x) (fl y) = true.
Proof.
  intros H. apply double_le in H. pose proof (pow2_pos 1024).
  destruct (fl_cases x) as [[-> Hx] | [[-> Hx] | [-> Hx]]],
           (fl_cases y) as [[-> Hy] | [[-> Hy] | [-> Hy]]];
    cbn [leb]; try reflexivity; try (exfalso; lra).
  now apply Qle_bool_iff.
Qed.

Lemma fl_nonneg (q : Q) : (0 <= q)%Q -> leb (Fin 0) (fl q) = true.
Proof.
  intros H. apply double_nonneg in H. pose proof (pow2_pos 1024).
  destruct (fl_cases q) as [[-> Hx] | [[-> Hx] | [-> Hx]]];
    cbn [leb]; try reflexivity; try (exfalso; lra).
  now apply Qle_bool_iff.
Qed.

Lemma fl_small (q : Q) :
  (- pow2 1024 < double q < pow2 1024)%Q -> fl q = Fin (double q).
Proof.
  intros H.
  destruct (fl_cases q) as [[_ Hx] | [[_ Hx] | [E _]]];
    [exfalso; lra | exfalso; lra | exact E].
Qed.

Lemma nonneg_cases (x : num) :
  leb (Fin 0) x = true -> x = PosInf \/ exists q, x = Fin q /\ (0 <= q)%Q.
Proof.
  destruct x as [| | q |]; cbn [leb]; try discriminate.
  - intros H. right. exists q. split; [reflexivity | now apply Qle_bool_iff].
  - now left.
Qed.

Lemma leb_trans (x y z : num) :
  leb x y = true -> leb y z = true -> leb x z = true.
Proof.
  destruct x, y, z; cbn [leb]; try discriminate; try reflexivity.
  rewrite !Qle_bool_iff. apply Qle_trans.
Qed.

Lemma double_of_Z_pos (c : Z) : 0 < c -> (1 <= double (inject_Z c))%Q.
Proof.
  intros H. apply (double_ge_bound _ (inject_Z 1)).
  - now apply representable_Z.
  - rewrite <- Zle_Qle. lia.
Qed.

Lemma double_of_Z_nonneg (c : Z) : 0 <= c -> (0 <= double (inject_Z c))%Q.
Proof.
  intros H. apply double_nonneg. now rewrite (Zle_Qle 0 c) in H.
Qed.

Lemma signed_inf_pos (q : Q) (pos neg : num) :
  (0 < q)%Q -> signed_inf q pos neg = pos.
Proof.
  intros H. unfold signed_inf.
  destruct (Qcompare_spec q 0) as [E | H' | H']; [lra | lra | reflexivity].
Qed.

Lemma Qeq_bool_pos (q : Q) : (0 < q)%Q -> Qeq_bool q 0 = false.
Proof.
  intros H. apply not_true_iff_false. rewrite Qeq_bool_iff. lra.
Qed.

(** Division by a positive integer. *)
Lemma div_of_Z (a : Q) (h : Z) :
  0 < h -> div (Fin a) (of_Z h) = fl (double a / double (inject_Z h)).
Proof.
  intros H. pose proof (double_of_Z_pos h H). unfold div, of_Z.
  now rewrite Qeq_bool_pos by lra.
Qed.

Lemma mul_of_Z (a : Q) (c : Z) :
  mul (Fin a) (of_Z c) = fl (double a * double (inject_Z c)).
Proof. reflexivity. Qed.

Lemma add_of_Z (a : Q) (c : Z) :
  add (Fin a) (of_Z c) = fl (double a + double (inject_Z c)).
Proof. reflexivity. Qed.

Lemma Qdiv_le_l (a b d : Q) : (0 < d)%Q -> (a <= b)%Q -> (a / d <= b / d)%Q.
Proof.
  intros Hd H. apply Qle_shift_div_l; [exact Hd |].
  assert (E : (a / d * d == a)%Q) by (field; lra).
  rewrite E. exact H.
Qed.

Lemma Qdiv_le_r (a d1 d2 : Q) :
  (0 <= a)%Q -> (0 < d1)%Q -> (d1 <= d2)%Q -> (a / d2 <= a / d1)%Q.
Proof.
  intros Ha H1 H2.
  apply Qle_shift_div_l; [lra |].
  assert (E : (a / d2 * d1 == a * (d1 / d2))%Q) by (field; lra).
  rewrite E.
  assert (d1 / d2 <= 1)%Q by (apply Qle_shift_div_r; lra).
  assert (0 <= d1 / d2)%Q by (apply Qle_shift_div_l; lra).
  nra.
Qed.

Lemma Qdiv_nonneg (a d : Q) : (0 <= a)%Q -> (0 < d)%Q -> (0 <= a / d)%Q.
Proof.
  intros Ha Hd. apply Qle_shift_div_l; [exact Hd | lra].
Qed.


Lemma div_le_r (a h1 h2 : Z) :
  0 <= a -> 0 < h1 -> h1 <= h2 ->
  leb (div (of_Z a) (of_Z h2)) (div (of_Z a) (of_Z h1)) = true.
Proof.
  intros Ha H1 H2. unfold of_Z at 1 3. rewrite !div_of_Z by lia.
  apply fl_le. pose proof (double_of_Z_pos h1 H1).
  apply Qdiv_le_r; [now apply double_of_Z_nonneg | lra |].
  apply double_le. now rewrite <- Zle_Qle.
Qed.

Lemma div_nonneg (a h : Z) :
  0 <= a -> 0 < h -> leb (Fin 0) (div (of_Z a) (of_Z h)) = true.
Proof.
  intros Ha Hh. unfold of_Z at 1. rewrite div_of_Z by exact Hh.
  apply fl_nonneg. pose proof (double_of_Z_pos h Hh).
  apply Qdiv_nonneg; [now apply double_of_Z_nonneg | lra].
Qed.

Lemma mul_le (x y : num) (c : Z) :
  0 < c -> leb x y = true -> leb (mul x (of_Z c)) (mul y (of_Z c)) = true.
Proof.
  intros Hc. pose proof (double_of_Z_pos c Hc) as Hd.
  assert (Hp : (0 < double (inject_Z c))%Q) by lra.
  assert (En : mul NegInf (of_Z c) = NegInf)
    by (unfold of_Z, mul; now rewrite signed_inf_pos).
  assert (Ep : mul PosInf (of_Z c) = PosInf)
    by (unfold of_Z, mul; now rewrite signed_inf_pos).
  destruct x as [| | a |], y as [| | b |]; cbn [leb]; try discriminate;
    intros H; rewrite ?En, ?Ep, ?mul_of_Z; try reflexivity;
    try (apply fl_le; apply Qle_bool_iff in H; apply double_le in H; nra);
    match goal with
    | |- context [fl ?q] =>
        destruct (fl_cases q) as [[-> _] | [[-> _] | [-> _]]]; reflexivity
    end.
Qed.

Lemma mul_nonneg (x : num) (c : Z) :
  0 < c -> leb (Fin 0) x = true -> leb (Fin 0) (mul x (of_Z c)) = true.
Proof.
  intros Hc H. pose proof (double_of_Z_pos c Hc) as Hd.
  destruct (nonneg_cases x H) as [-> | (q & -> & Hq)].
  - unfold of_Z, mul. now rewrite signed_inf_pos by lra.
  - rewrite mul_of_Z. apply fl_nonneg. apply double_nonneg in Hq. nra.
Qed.

Lemma add_le (x y : num) (c : Q) :
  leb x y = true -> leb (add x (Fin c)) (add y (Fin c)) = true.
Proof.
  destruct x as [| | a |], y as [| | b |]; cbn [leb add]; try discriminate;
    intros H; try reflexivity;
    try (apply fl_le; apply Qle_bool_iff in H; apply double_le in H; lra);
    match goal with
    | |- context [fl ?q] =>
        destruct (fl_cases q) as [[-> _] | [[-> _] | [-> _]]]; reflexivity
    end.
Qed.

Lemma add_nonneg (x : num) (c : Z) :
  0 <= c -> leb (Fin 0) x = true -> leb (Fin 0) (add x (of_Z c)) = true.
Proof.
  intros Hc H. pose proof (double_of_Z_nonneg c Hc) as Hd.
  destruct (nonneg_cases x H) as [-> | (q & -> & Hq)].
  - reflexivity.
  - rewrite add_of_Z. apply fl_nonneg. apply double_nonneg in Hq. lra.
Qed.

Lemma Math_round_le (x y : num) :
  leb x y = true -> leb (Math_round x) (Math_round y) = true.
Proof.
  destruct x as [| | a |], y as [| | b |]; cbn [leb Math_round];
    try discriminate; try reflexivity.
  intros H. apply Qle_bool_iff in H.
  change (leb (of_Z (round_half_up a)) (of_Z (round_half_up b)) = true).
  rewrite leb_of_Z. apply Z.leb_le. now apply round_half_up_le.
Qed.

Lemma Math_min_le (c : Z) (x y : num) :
  leb x y = true ->
  leb (Math_min (of_Z c) x) (Math_min (of_Z c) y) = true.
Proof.
  destruct x as [| | a |], y as [| | b |]; cbn [leb];
    try discriminate; intros H; unfold Math_min, of_Z; cbn [ltb];
    rewrite ?Qltb_dec;
    repeat match goal with
           | |- context [Qlt_le_dec ?u ?v] => destruct (Qlt_le_dec u v)
           end;
    cbn [leb]; try reflexivity; try (apply Qle_bool_iff in H);
    try (apply Qle_bool_iff; lra).
Qed.

(** A non-negative number, rounded and capped, is an integer of [0, 100]. *)
Lemma cap_nonneg (x : num) :
  leb (Fin 0) x = true ->
  exists n, Math_min (of_Z 100) (Math_round x) = of_Z n /\ 0 <= n <= 100.
Proof.
  intros H. destruct (nonneg_cases x H) as [-> | (q & -> & Hq)].
  - exists 100. split; [reflexivity | lia].
  - exists (Z.min 100 (round_half_up q)). cbn [Math_round].
    rewrite Math_min_of_Z. split; [reflexivity |].
    assert (round_half_up 0 <= round_half_up q) by now apply round_half_up_le.
    change (round_half_up 0) with 0 in *. lia.
Qed.


(** ** Rain probability *)

Lemma length_filter_le {A} (f : A -> bool) (xs : list A) :
  0 <= length (filter f xs) <= length xs.
Proof.
  unfold length. pose proof (filter_length_le f xs). lia.
Qed.

Lemma rainHours_spec (precipitation : list Q) :
  length (filter (fun p => Qltb (1 # 10) p) precipitation)
  = Spec.rainHours precipitation.
Proof.
  unfold Spec.rainHours. f_equal. apply filter_ext.
  intros p. apply Qltb_dec.
Qed.

Lemma rainHours_bounds (precipitation : list Q) :
  0 <= Spec.rainHours precipitation <= length precipitation.
Proof. rewrite <- rainHours_spec. apply length_filter_le. Qed.

(** [reduce] accumulates from the first sample to the last. *)
Lemma sum_total64 (xs : list Q) : sum xs = Spec.total64 xs.
Proof.
  unfold sum, Spec.total64. symmetry.
  apply (fold_left_rev_right (fun x acc => add acc (Fin x))).
Qed.

(** The bonus of lines 19-23. *)
Lemma humidityBonus_spec (humidity : option (list Q)) :
  match humidity with
  | Some humidity =>
      if 0 <? length humidity then
        let avgHumidity := div (sum humidity) (of_Z (length humidity)) in
        if gtb avgHumidity (of_Z 80) then 10
        else if gtb avgHumidity (of_Z 60) then 5 else 0
      else 0
  | None => 0
  end = Spec.humidityBonus64 humidity.
Proof.
  destruct humidity as [[| h hs] |]; try reflexivity.
  assert (Hlen : 0 < length (h :: hs)) by (unfold length; simpl; lia).
  apply Z.ltb_lt in Hlen as ->. cbv zeta.
  unfold Spec.humidityBonus64, Spec.mean64. now rewrite sum_total64.
Qed.

Lemma humidityBonus64_cases (humidity : option (list Q)) :
  Spec.humidityBonus64 humidity = 0
  \/ Spec.humidityBonus64 humidity = 5
  \/ Spec.humidityBonus64 humidity = 10.
Proof.
  unfold Spec.humidityBonus64. destruct humidity as [[| h hs] |]; auto.
  destruct (gtb _ (of_Z 80)); auto. destruct (gtb _ (of_Z 60)); auto.
Qed.

(** [calculateRainProbability] from the count of wet samples and the bonus. *)
Lemma calculateRainProbability_eq (precipitation : list Q)
    (humidity : option (list Q)) (hours : Z) :
  calculateRainProbability precipitation humidity hours
  = Math_min (of_Z 100)
      (Math_round
         (add (mul (div (of_Z (Spec.rainHours precipitation)) (of_Z hours))
                 (of_Z 100))
            (of_Z (Spec.humidityBonus64 humidity)))).
Proof.
  unfold calculateRainProbability. cbv zeta.
  now rewrite rainHours_spec, humidityBonus_spec.
Qed.

Lemma base_nonneg (precipitation : list Q) (humidity : option (list Q))
    (hours : Z) :
  1 <= hours ->
  leb (Fin 0)
    (add (mul (div (of_Z (Spec.rainHours precipitation)) (of_Z hours))
            (of_Z 100))
       (of_Z (Spec.humidityBonus64 humidity))) = true.
Proof.
  intros Hh. pose proof (rainHours_bounds precipitation).
  apply add_nonneg.
  - destruct (humidityBonus64_cases humidity) as [-> | [-> | ->]]; lia.
  - apply mul_nonneg; [lia |]. apply div_nonneg; lia.
Qed.

(** For a positive [hours] the result is an integer of [0, 100]. *)
Lemma calculateRainProbability_pos (precipitation : list Q)
    (humidity : option (list Q)) (hours : Z) :
  1 <= hours ->
  exists n,
    calculateRainProbability precipitation humidity hours = of_Z n
    /\ 0 <= n <= 100.
Proof.
  intros Hh. rewrite calculateRainProbability_eq.
  apply cap_nonneg. now apply base_nonneg.
Qed.

(** The result grows with the quotient [rainHours / hours]. *)
Lemma cap_le (x y : num) (bonus : Z) :
  leb x y = true ->
  leb (Math_min (of_Z 100) (Math_round (add (mul x (of_Z 100)) (of_Z bonus))))
      (Math_min (of_Z 100) (Math_round (add (mul y (of_Z 100)) (of_Z bonus))))
  = true.
Proof.
  intros H. apply Math_min_le, Math_round_le, add_le, mul_le; [lia | exact H].
Qed.

(** The probability does not grow with the denominator. *)
Lemma calculateRainProbability_antitone (precipitation : list Q)
    (humidity : option (list Q)) (d1 d2 a b : Z) :
  1 <= d2 <= d1 ->
  calculateRainProbability precipitation humidity d1 = of_Z a ->
  calculateRainProbability precipitation humidity d2 = of_Z b ->
  a <= b.
Proof.
  intros Hd Ea Eb. pose proof (rainHours_bounds precipitation).
  apply Z.leb_le. rewrite <- leb_of_Z, <- Ea, <- Eb.
  rewrite !calculateRainProbability_eq.
  apply cap_le, div_le_r; lia.
Qed.

(** *** The distance to the exact formula *)

Lemma rne_half (t : Q) : (Qabs (t - inject_Z (rne t)) <= 1 # 2)%Q.
Proof.
  destruct (rne_cases t) as [[Hlo Hhi] [[-> H] | [-> H]]].
  - rewrite Qabs_pos by lra. exact H.
  - rewrite inject_Z_plus. change (inject_Z 1) with 1%Q.
    rewrite Qabs_neg by lra. lra.
Qed.

(** Below [2 ^ k] in magnitude, rounding moves a number by at most
    [2 ^ (k - 53)]. *)
Lemma double_error (q : Q) (k : Z) :
  -1022 <= k -> (Qabs q <= pow2 k)%Q ->
  (Qabs (q - double q) <= pow2 (k - 53))%Q.
Proof.
  intros Hk Hq.
  set (e := k - 52).
  set (t := (q / pow2 e)%Q).
  pose proof (pow2_pos e) as He.
  assert (Et : (t * pow2 e == q)%Q) by (unfold t; field; lra).
  assert (Ht : (Qabs t <= pow2 52)%Q).
  { apply (Qmult_le_r _ _ (pow2 e)); [exact He |].
    rewrite <- Qabs_scale by exact He. rewrite Et, <- pow2_add.
    replace (52 + e) with k by (unfold e; lia). exact Hq. }
  apply Qabs_Qle_condition in Ht. destruct Ht as [Hlo Hhi].
  rewrite pow2_inject in Hlo, Hhi by lia.
  assert (Hm : - 2 ^ 52 <= rne t <= 2 ^ 52).
  { split.
    - rewrite <- (rne_Z (- 2 ^ 52)). apply rne_le.
      now rewrite inject_Z_opp.
    - rewrite <- (rne_Z (2 ^ 52)). now apply rne_le. }
  assert (Hw : representable (inject_Z (rne t) * pow2 e)).
  { exists (rne t), e. split; [lia |]. split; [unfold e; lia | reflexivity]. }
  eapply Qle_trans; [apply (double_nearest q _ Hw) |].
  assert (E : (q - inject_Z (rne t) * pow2 e
               == (t - inject_Z (rne t)) * pow2 e)%Q)
    by (rewrite <- Et at 1; ring).
  rewrite E, Qabs_scale by exact He.
  replace (k - 53) with (-1 + e) by (unfold e; lia).
  rewrite pow2_add. change (pow2 (-1)) with (1 # 2)%Q.
  apply Qmult_le_compat_r; [apply rne_half | lra].
Qed.






(** *** The distance of the binary64 mean to the exact one *)

Lemma Qabs_le_iff (x e : Q) : (Qabs x <= e)%Q <-> (- e <= x <= e)%Q.
Proof. apply Qabs_Qle_condition. Qed.

(** Within [2 ^ k] in magnitude, a number is rounded to a number of the same
    range, not further than [2 ^ (k - 53)]. *)
Lemma fl_within (q : Q) (k : Z) :
  -1022 <= k <= 1023 -> (- pow2 k <= q <= pow2 k)%Q ->
  fl q = Fin (double q)
  /\ (- pow2 k <= double q <= pow2 k)%Q
  /\ (- pow2 (k - 53) <= q - double q <= pow2 (k - 53))%Q.
Proof.
  intros Hk Hq.
  assert (Hr : representable (pow2 k)) by (apply representable_pow2; lia).
  assert (Hd : (- pow2 k <= double q <= pow2 k)%Q).
  { split.
    - apply double_ge_bound; [now apply representable_opp | tauto].
    - apply double_le_bound; [exact Hr | tauto]. }
  split; [| split; [exact Hd |]].
  - apply fl_small.
    assert (pow2 k < pow2 1024)%Q by (apply pow2_lt; lia). lra.
  - apply Qabs_le_iff, double_error; [lia |]. now apply Qabs_le_iff.
Qed.

Lemma total_cons (x : Q) (xs : list Q) :
  Spec.total (x :: xs) = (x + Spec.total xs)%Q.
Proof. reflexivity. Qed.

Lemma length_cons {A} (x : A) (xs : list A) :
  length (x :: xs) = length xs + 1.
Proof. unfold length. cbn [List.length]. lia. Qed.

Lemma length_nonneg {A} (xs : list A) : 0 <= length xs.
Proof. unfold length. lia. Qed.

(** The accumulation of [reduce]: each of at most 1024 additions of a sample
    within [-1024, 1024] moves the sum by at most [2 ^ -30]. *)
Lemma sum_near_aux (xs : list Q) : forall (t s : Q) (k : Z),
  0 <= k -> k + length xs <= 1024 ->
  (double t == t)%Q ->
  (- (inject_Z k * pow2 (-30)) <= t - s <= inject_Z k * pow2 (-30))%Q ->
  (- (inject_Z k * 1024) <= s <= inject_Z k * 1024)%Q ->
  (forall x, In x xs -> (- 1024 <= x <= 1024)%Q) ->
  exists t',
    fold_left (fun a b => add a (Fin b)) xs (Fin t) = Fin t'
    /\ (double t' == t')%Q
    /\ (- (inject_Z (k + length xs) * pow2 (-30))
        <= t' - (s + Spec.total xs)
        <= inject_Z (k + length xs) * pow2 (-30))%Q
    /\ (- (inject_Z (k + length xs) * 1024)
        <= s + Spec.total xs
        <= inject_Z (k + length xs) * 1024)%Q.
Proof.
  induction xs as [| x xs IH]; intros t s k Hk Hlen Et Hts Hs Hall.
  - exists t. cbn [fold_left]. split; [reflexivity |]. split; [exact Et |].
    change (length (@nil Q)) with 0. rewrite Z.add_0_r.
    change (Spec.total []) with 0%Q. split; lra.
  - cbn [fold_left add]. rewrite length_cons in *.
    pose proof (length_nonneg xs) as Hn.
    pose proof (Hall x (or_introl eq_refl)) as Hx.
    assert (Qk : (0 <= inject_Z k <= 1023)%Q).
    { change 0%Q with (inject_Z 0). change 1023%Q with (inject_Z 1023).
      rewrite <- !Zle_Qle. lia. }
    assert (P30 : (pow2 (-30) == 1 # 1073741824)%Q) by reflexivity.
    assert (P32 : (pow2 (21 - 53) == 1 # 4294967296)%Q) by reflexivity.
    assert (P43 : (pow2 (10 - 53) == 1 # 8796093022208)%Q) by reflexivity.
    assert (P10 : (pow2 10 == 1024)%Q) by reflexivity.
    assert (P21 : (pow2 21 == 2097152)%Q) by reflexivity.
    (* the sample as an operand *)
    destruct (fl_within x 10 ltac:(lia) ltac:(rewrite P10; exact Hx))
      as (_ & Hdx & Edx).
    rewrite P10 in Hdx. rewrite P43 in Edx.
    (* the addition *)
    rewrite (fl_comp _ (t + double x)) by now rewrite Et.
    assert (Ht : (- 2097152 <= t + double x <= 2097152)%Q).
    { rewrite P30 in Hts. nra. }
    destruct (fl_within (t + double x) 21 ltac:(lia)
                ltac:(rewrite P21; exact Ht)) as (-> & _ & Eadd).
    rewrite P32 in Eadd.
    set (t1 := double (t + double x)) in *.
    destruct (IH t1 (s + x)%Q (k + 1)) as (t' & E' & Et' & Hnear & Hbound).
    + lia.
    + lia.
    + apply double_idempotent.
    + rewrite inject_Z_plus. change (inject_Z 1) with 1%Q.
      rewrite P30 in *. split; lra.
    + rewrite inject_Z_plus. change (inject_Z 1) with 1%Q. split; lra.
    + intros y Hy. apply Hall. now right.
    + exists t'. split; [exact E' |]. split; [exact Et' |].
      rewrite total_cons.
      replace (k + (length xs + 1)) with (k + 1 + length xs) by lia.
      assert (E : (s + (x + Spec.total xs) == s + x + Spec.total xs)%Q) by ring.
      rewrite E. split; assumption.
Qed.

Lemma Qdiv_bounds (x e n : Q) :
  (0 < n)%Q -> (- (n * e) <= x <= n * e)%Q -> (- e <= x / n <= e)%Q.
Proof.
  intros Hn [Hlo Hhi]. split.
  - apply Qle_shift_div_l; [exact Hn | lra].
  - apply Qle_shift_div_r; [exact Hn | lra].
Qed.

(** The binary64 mean of at most 1024 samples within [-1024, 1024] lies
    within [2 ^ -29] of the exact mean. *)
Lemma mean64_near (xs : list Q) :
  xs <> [] -> length xs <= 1024 ->
  (forall x, In x xs -> (- 1024 <= x <= 1024)%Q) ->
  exists a,
    Spec.mean64 xs = Fin a
    /\ (double a == a)%Q
    /\ (- 1025 <= a <= 1025)%Q
    /\ (- pow2 (-29) <= a - Spec.mean xs <= pow2 (-29))%Q.
Proof.
  intros Hne Hlen Hall.
  assert (Hpos : 1 <= length xs)
    by (destruct xs; [congruence | rewrite length_cons;
                                   pose proof (length_nonneg xs); lia]).
  destruct (sum_near_aux xs 0 0 0 ltac:(lia) ltac:(lia)) as (t & Et & Dt & Hnear & Hbound).
  - now rewrite double_0.
  - change (inject_Z 0) with 0%Q. lra.
  - change (inject_Z 0) with 0%Q. lra.
  - exact Hall.
  - fold (sum xs) in Et. rewrite Z.add_0_l in Hnear, Hbound.
    assert (E0 : forall u, (0 + u == u)%Q) by (intros; ring).
    rewrite E0 in Hnear, Hbound.
    set (n := inject_Z (length xs)) in *.
    assert (Qn : (1 <= n <= 1024)%Q).
    { unfold n. change 1%Q with (inject_Z 1). change 1024%Q with (inject_Z 1024).
      rewrite <- !Zle_Qle. lia. }
    assert (P30 : (pow2 (-30) == 1 # 1073741824)%Q) by reflexivity.
    assert (P29 : (pow2 (-29) == 1 # 536870912)%Q) by reflexivity.
    assert (P42 : (pow2 (11 - 53) == 1 # 4398046511104)%Q) by reflexivity.
    assert (P11 : (pow2 11 == 2048)%Q) by reflexivity.
    unfold Spec.mean64. rewrite <- sum_total64, Et, div_of_Z by lia.
    rewrite (fl_comp _ (t / n))
      by (unfold n; rewrite Dt, double_Z by lia; reflexivity).
    assert (H1 : (- pow2 (-30) <= (t - Spec.total xs) / n <= pow2 (-30))%Q)
      by (apply Qdiv_bounds; lra).
    pose proof (Qdiv_bounds (Spec.total xs) 1024 n ltac:(lra) ltac:(lra))
      as H2.
    assert (E : ((t - Spec.total xs) / n == t / n - Spec.total xs / n)%Q)
      by (field; lra).
    rewrite E in H1. rewrite P30 in H1.
    destruct (fl_within (t / n) 11 ltac:(lia) ltac:(rewrite P11; lra))
      as (-> & _ & Ediv).
    rewrite P42 in Ediv.
    exists (double (t / n)). split; [reflexivity |].
    split; [apply double_idempotent |].
    unfold Spec.mean. fold n. rewrite P29. split; split; lra.
Qed.

Lemma Qabs_gt (x e : Q) : (e < Qabs x)%Q -> (x < - e)%Q \/ (e < x)%Q.
Proof.
  intros H. destruct (Qlt_le_dec x 0) as [Hx | Hx].
  - rewrite Qabs_neg in H by lra. left. lra.
  - rewrite Qabs_pos in H by exact Hx. now right.
Qed.

Lemma within_1024 (xs : list Q) :
  (forall x, In x xs -> (Qabs x <= 1024)%Q) ->
  forall x, In x xs -> (- 1024 <= x <= 1024)%Q.
Proof.
  intros Hall x Hx. specialize (Hall x Hx). apply Qabs_le_iff in Hall.
  destruct Hall as [Hlo Hhi]. split; [| exact Hhi].
  change (-1024)%Q with (- (1024))%Q. exact Hlo.
Qed.

(** A threshold further than [2 ^ -29] from the exact mean separates the
    binary64 mean as it does the exact one. *)
Lemma mean64_gtb (xs : list Q) (c : Z) :
  xs <> [] -> length xs <= 1024 ->
  (forall x, In x xs -> (Qabs x <= 1024)%Q) ->
  (pow2 (-29) < Qabs (Spec.mean xs - inject_Z c))%Q ->
  gtb (Spec.mean64 xs) (of_Z c)
  = if Qlt_le_dec (inject_Z c) (Spec.mean xs) then true else false.
Proof.
  intros Hne Hlen Hall Hfar.
  destruct (mean64_near xs Hne Hlen (within_1024 xs Hall))
    as (a & -> & _ & _ & Hnear).
  unfold gtb, of_Z. cbn [ltb]. rewrite Qltb_dec.
  pose proof (pow2_pos (-29)).
  apply Qabs_gt in Hfar.
  destruct (Qlt_le_dec (inject_Z c) a), (Qlt_le_dec (inject_Z c) (Spec.mean xs));
    try reflexivity; exfalso; destruct Hfar; lra.
Qed.

(** Away from the two thresholds the binary64 bonus is the exact one. *)
Lemma humidityBonus64_exact (hs : list Q) :
  length hs <= 1024 ->
  (forall x, In x hs -> (Qabs x <= 1024)%Q) ->
  (pow2 (-29) < Qabs (Spec.mean hs - 60))%Q ->
  (pow2 (-29) < Qabs (Spec.mean hs - 80))%Q ->
  (inject_Z (Spec.humidityBonus64 (Some hs)) == Spec.humidityBonus (Some hs))%Q.
Proof.
  intros Hlen Hall H60 H80.
  destruct hs as [| h hs]; [reflexivity |].
  unfold Spec.humidityBonus64, Spec.humidityBonus.
  rewrite (mean64_gtb (h :: hs) 80), (mean64_gtb (h :: hs) 60);
    try assumption; try discriminate.
  change (inject_Z 80) with 80%Q. change (inject_Z 60) with 60%Q.
  destruct (Qlt_le_dec 80 _); [reflexivity |].
  destruct (Qlt_le_dec 60 _); reflexivity.
Qed.

(** *** The formula of the specification *)





(** The examples of the specification: two hours of 0.5 mm among 24 dry
    ones, analysed over the 12 hours that contain them; and a dry window
    with a humidity mean of 85. *)
Example rainProbability_two_of_twelve :
  calculateRainProbability
    [0; 0; 0; 0; 0; 0; 0; 0; 0; 0; 1 # 2; 1 # 2]%Q None 12 = of_Z 17.
Proof. vm_compute. reflexivity. Qed.

Example rainProbability_dry_and_humid :
  calculateRainProbability [0; 0; 0]%Q (Some [80; 85; 90]%Q) 3 = of_Z 10.
Proof. vm_compute. reflexivity. Qed.

(** ** Maximum and minimum *)

Lemma Math_max_Fin (a x : Q) :
  Math_max (Fin a) (Fin x) = Fin (if Qlt_le_dec a x then x else a).
Proof.
  unfold Math_max, ltb. rewrite Qltb_dec. now destruct (Qlt_le_dec a x).
Qed.

Lemma Math_min_Fin (a x : Q) :
  Math_min (Fin a) (Fin x) = Fin (if Qlt_le_dec x a then x else a).
Proof.
  unfold Math_min, ltb. rewrite Qltb_dec. now destruct (Qlt_le_dec x a).
Qed.

Lemma fold_Math_max (xs : list Q) : forall a,
  exists m, fold_left (fun m x => Math_max m (Fin x)) xs (Fin a) = Fin m
            /\ Spec.is_max (a :: xs) m.
Proof.
  induction xs as [| x xs IH]; intros a; cbn [fold_left].
  - exists a. split; [reflexivity |]. split; [now left |].
    intros y [<- | []]. lra.
  - rewrite Math_max_Fin.
    destruct (IH (if Qlt_le_dec a x then x else a)) as (m & Hm & Hin & Hle).
    exists m. split; [exact Hm |].
    assert (Hb : (a <= m /\ x <= m)%Q).
    { pose proof (Hle _ (or_introl eq_refl)) as H.
      destruct (Qlt_le_dec a x); lra. }
    split.
    + destruct Hin as [Hin | Hin]; [| now right; right].
      destruct (Qlt_le_dec a x); [right; left | left]; exact Hin.
    + intros y [<- | [<- | Hy]]; try tauto. apply Hle. now right.
Qed.

Lemma fold_Math_min (xs : list Q) : forall a,
  exists m, fold_left (fun m x => Math_min m (Fin x)) xs (Fin a) = Fin m
            /\ Spec.is_min (a :: xs) m.
Proof.
  induction xs as [| x xs IH]; intros a; cbn [fold_left].
  - exists a. split; [reflexivity |]. split; [now left |].
    intros y [<- | []]. lra.
  - rewrite Math_min_Fin.
    destruct (IH (if Qlt_le_dec x a then x else a)) as (m & Hm & Hin & Hle).
    exists m. split; [exact Hm |].
    assert (Hb : (m <= a /\ m <= x)%Q).
    { pose proof (Hle _ (or_introl eq_refl)) as H.
      destruct (Qlt_le_dec x a); lra. }
    split.
    + destruct Hin as [Hin | Hin]; [| now right; right].
      destruct (Qlt_le_dec x a); [right; left | left]; exact Hin.
    + intros y [<- | [<- | Hy]]; try tauto. apply Hle. now right.
Qed.

(** On a non-empty argument list [Math.max] and [Math.min] return the
    greatest and the least element. *)
Lemma Math_max_of_is_max (xs : list Q) :
  xs <> [] -> exists m, Math_max_of xs = Fin m /\ Spec.is_max xs m.
Proof.
  destruct xs as [| x xs]; [congruence | intros _].
  unfold Math_max_of. cbn [fold_left].
  change (Math_max NegInf (Fin x)) with (Fin x). apply fold_Math_max.
Qed.

Lemma Math_min_of_is_min (xs : list Q) :
  xs <> [] -> exists m, Math_min_of xs = Fin m /\ Spec.is_min xs m.
Proof.
  destruct xs as [| x xs]; [congruence | intros _].
  unfold Math_min_of. cbn [fold_left].
  change (Math_min PosInf (Fin x)) with (Fin x). apply fold_Math_min.
Qed.

Lemma gtb_Fin_of_Z (m : Q) (c : Z) :
  gtb (Fin m) (of_Z c) = if Qlt_le_dec (inject_Z c) m then true else false.
Proof. unfold gtb, ltb, of_Z. apply Qltb_dec. Qed.

Lemma ltb_Fin_of_Z (m : Q) (c : Z) :
  ltb (Fin m) (of_Z c) = if Qlt_le_dec m (inject_Z c) then true else false.
Proof. unfold ltb, of_Z. apply Qltb_dec. Qed.

(** ** Temperature *)

(** The status of lines 34-38 in terms of the greatest and least sample. *)
Lemma tempStatus_rules (temperatures : list Q) :
  temperatures <> [] ->
  exists mx mn,
    Spec.is_max temperatures mx /\ Spec.is_min temperatures mn /\
    Math_max_of temperatures = Fin mx /\ Math_min_of temperatures = Fin mn /\
    t_status (evaluateTemperature temperatures)
    = if Qlt_le_dec 35 mx then muy_alta
      else if Qlt_le_dec mn 0 then muy_baja
      else if Qlt_le_dec 30 mx then alta
      else if Qlt_le_dec mn 5 then baja
      else normal.
Proof.
  intros Hne.
  destruct (Math_max_of_is_max _ Hne) as (mx & Emx & Hmx).
  destruct (Math_min_of_is_min _ Hne) as (mn & Emn & Hmn).
  exists mx, mn.
  split; [exact Hmx |]. split; [exact Hmn |].
  split; [exact Emx |]. split; [exact Emn |].
  unfold evaluateTemperature. cbn [t_status]. rewrite Emx, Emn.
  rewrite !gtb_Fin_of_Z, !ltb_Fin_of_Z.
  change (inject_Z 35) with 35%Q. change (inject_Z 30) with 30%Q.
  change (inject_Z 0) with 0%Q. change (inject_Z 5) with 5%Q.
  destruct (Qlt_le_dec 35 mx); [reflexivity |].
  destruct (Qlt_le_dec mn 0); [reflexivity |].
  destruct (Qlt_le_dec 30 mx); [reflexivity |].
  destruct (Qlt_le_dec mn 5); reflexivity.
Qed.

(** C6: on a non-empty sequence with greatest sample [mx] and least sample
    [mn], [evaluateTemperature] gives the status of the first rule that
    matches, in the order: [mx > 35] gives [muy_alta]; else [mn < 0] gives
    [muy_baja]; else [mx > 30] gives [alta]; else [mn < 5] gives [baja]; else
    [normal].  Each status is characterised by its own condition, so the
    five brackets are total and mutually exclusive; and [36, 20, -1] is
    [muy_alta]. *)
Theorem evaluateTemperature_status (temperatures : list Q) :
  temperatures <> [] ->
  exists mx mn,
    Spec.is_max temperatures mx /\ Spec.is_min temperatures mn /\
    let status := t_status (evaluateTemperature temperatures) in
    status = (if Qlt_le_dec 35 mx then muy_alta
              else if Qlt_le_dec mn 0 then muy_baja
              else if Qlt_le_dec 30 mx then alta
              else if Qlt_le_dec mn 5 then baja
              else normal) /\
    (status = muy_alta <-> (35 < mx)%Q) /\
    (status = muy_baja <-> (mx <= 35 /\ mn < 0)%Q) /\
    (status = alta <-> (30 < mx <= 35 /\ 0 <= mn)%Q) /\
    (status = baja <-> (mx <= 30 /\ 0 <= mn < 5)%Q) /\
    (status = normal <-> (mx <= 30 /\ 5 <= mn)%Q) /\
    t_status (evaluateTemperature [36; 20; -1]%Q) = muy_alta.
Proof.
  intros Hne.
  destruct (tempStatus_rules _ Hne) as (mx & mn & Hmx & Hmn & _ & _ & E).
  exists mx, mn. split; [exact Hmx |]. split; [exact Hmn |].
  cbv zeta. rewrite E.
  destruct (Qlt_le_dec 35 mx); [| destruct (Qlt_le_dec mn 0);
    [| destruct (Qlt_le_dec 30 mx); [| destruct (Qlt_le_dec mn 5)]]];
    (repeat split; try reflexivity; try discriminate; try lra;
     intros H; exfalso; lra).
Qed.

Lemma evaluateTemperature_status_witness :
  exists mx mn,
    Spec.is_max [12; 31; 7]%Q mx /\ Spec.is_min [12; 31; 7]%Q mn /\
    let status := t_status (evaluateTemperature [12; 31; 7]%Q) in
    status = (if Qlt_le_dec 35 mx then muy_alta
              else if Qlt_le_dec mn 0 then muy_baja
              else if Qlt_le_dec 30 mx then alta
              else if Qlt_le_dec mn 5 then baja
              else normal) /\
    (status = muy_alta <-> (35 < mx)%Q) /\
    (status = muy_baja <-> (mx <= 35 /\ mn < 0)%Q) /\
    (status = alta <-> (30 < mx <= 35 /\ 0 <= mn)%Q) /\
    (status = baja <-> (mx <= 30 /\ 0 <= mn < 5)%Q) /\
    (status = normal <-> (mx <= 30 /\ 5 <= mn)%Q) /\
    t_status (evaluateTemperature [36; 20; -1]%Q) = muy_alta.
Proof.
  apply (evaluateTemperature_status [12; 31; 7]%Q). discriminate.
Defined.

(** ** Rounding to one decimal *)

Lemma Math_round_integer (x : num) :
  Math_round x = Spec.integer Spec.half_up x.
Proof.
  destruct x as [| | q |]; try reflexivity.
  cbn [Math_round Spec.integer]. now rewrite half_up_spec.
Qed.

Lemma round1_tenths64 (x : num) : round1 x = Spec.tenths64 x.
Proof.
  unfold round1, Spec.tenths64. now rewrite Math_round_integer.
Qed.

Lemma average_mean64 (xs : list Q) :
  div (sum xs) (of_Z (length xs)) = Spec.mean64 xs.
Proof. unfold Spec.mean64. now rewrite sum_total64. Qed.

(** The statistics of [evaluateTemperature] and [evaluateWind] on a
    non-empty sequence. *)
Lemma evaluate_statistics (xs : list Q) :
  xs <> [] ->
  exists mx mn,
    Spec.is_max xs mx /\ Spec.is_min xs mn /\
    t_average (evaluateTemperature xs) = Spec.tenths64 (Spec.mean64 xs) /\
    t_max (evaluateTemperature xs) = Spec.tenths64 (Fin mx) /\
    t_min (evaluateTemperature xs) = Spec.tenths64 (Fin mn) /\
    w_average (evaluateWind xs) = Spec.tenths64 (Spec.mean64 xs) /\
    w_max (evaluateWind xs) = Spec.tenths64 (Fin mx).
Proof.
  intros Hne.
  destruct (Math_max_of_is_max _ Hne) as (mx & Emx & Hmx).
  destruct (Math_min_of_is_min _ Hne) as (mn & Emn & Hmn).
  exists mx, mn.
  unfold evaluateTemperature, evaluateWind.
  cbn [t_average t_max t_min w_average w_max].
  rewrite Emx, Emn, average_mean64, !round1_tenths64.
  repeat split; solve [apply Hmx | apply Hmn].
Qed.

Lemma half_up_nonneg (q : Q) :
  (0 <= q)%Q -> Spec.half_up q = Spec.round_half_away q.
Proof.
  intros H. now rewrite half_up_spec, round_half_away_nonneg.
Qed.

Lemma round_half_up_half (b : Q) :
  (- (1 # 2) <= inject_Z (round_half_up b) - b <= 1 # 2)%Q.
Proof.
  unfold round_half_up.
  pose proof (Qfloor_le (b + (1 # 2))) as Hlo.
  pose proof (Qlt_floor (b + (1 # 2))) as Hhi.
  rewrite inject_Z_plus in Hhi. change (inject_Z 1) with 1%Q in Hhi.
  split; lra.
Qed.

Lemma double_within_Z (q : Q) (c : Z) :
  0 <= c < 2 ^ 53 -> (- inject_Z c <= q <= inject_Z c)%Q ->
  (- inject_Z c <= double q <= inject_Z c)%Q.
Proof.
  intros Hc [Hlo Hhi].
  assert (Hr : representable (inject_Z c)) by (apply representable_Z; lia).
  split.
  - apply double_ge_bound; [now apply representable_opp | exact Hlo].
  - apply double_le_bound; [exact Hr | exact Hhi].
Qed.

(** Within [-1025, 1025], [Math.round(v * 10) / 10] lies within
    [0.05 + 2 ^ -37] of [v]. *)
Lemma round1_near (v : Q) :
  (- 1025 <= v <= 1025)%Q ->
  exists c,
    round1 (Fin v) = Fin c
    /\ (- ((1 # 20) + pow2 (-37)) <= c - v <= (1 # 20) + pow2 (-37))%Q.
Proof.
  intros Hv.
  assert (P11 : (pow2 11 == 2048)%Q) by reflexivity.
  assert (P14 : (pow2 14 == 16384)%Q) by reflexivity.
  assert (P42 : (pow2 (11 - 53) == 1 # 4398046511104)%Q) by reflexivity.
  assert (P39 : (pow2 (14 - 53) == 1 # 549755813888)%Q) by reflexivity.
  assert (P37 : (pow2 (-37) == 1 # 137438953472)%Q) by reflexivity.
  assert (E10 : (double (inject_Z 10) == 10)%Q) by (vm_compute; reflexivity).
  unfold round1. rewrite mul_of_Z.
  (* the operand *)
  destruct (fl_within v 11 ltac:(lia) ltac:(rewrite P11; lra))
    as (_ & _ & Ea).
  pose proof (double_within_Z v 1025 ltac:(lia)
                ltac:(change (inject_Z 1025) with 1025%Q; lra)) as Ha.
  change (inject_Z 1025) with 1025%Q in Ha. rewrite P42 in Ea.
  set (a := double v) in *.
  (* the product *)
  rewrite (fl_comp _ (a * 10)) by now rewrite E10.
  destruct (fl_within (a * 10) 14 ltac:(lia) ltac:(rewrite P14; lra))
    as (-> & _ & Eb).
  pose proof (double_within_Z (a * 10) 10250 ltac:(lia)
                ltac:(change (inject_Z 10250) with 10250%Q; lra)) as Hb.
  change (inject_Z 10250) with 10250%Q in Hb. rewrite P39 in Eb.
  set (b := double (a * 10)) in *.
  (* the nearest integer *)
  cbn [Math_round].
  pose proof (round_half_up_half b) as Em.
  assert (Hm : -10250 <= round_half_up b <= 10250).
  { split.
    - rewrite <- (round_half_up_Z (-10250)). apply round_half_up_le.
      change (inject_Z (-10250)) with (-10250)%Q. lra.
    - rewrite <- (round_half_up_Z 10250). apply round_half_up_le.
      change (inject_Z 10250) with 10250%Q. lra. }
  set (m := round_half_up b) in *.
  assert (Qm : (- 10250 <= inject_Z m <= 10250)%Q).
  { change (-10250)%Q with (inject_Z (-10250)).
    change 10250%Q with (inject_Z 10250). rewrite <- !Zle_Qle. exact Hm. }
  (* the quotient *)
  unfold of_Z at 1. rewrite div_of_Z by lia.
  rewrite (fl_comp _ (inject_Z m / 10))
    by (rewrite E10, double_Z by lia; reflexivity).
  assert (Hq : (- 1025 <= inject_Z m / 10 <= 1025)%Q).
  { split; [apply Qle_shift_div_l | apply Qle_shift_div_r]; lra. }
  destruct (fl_within (inject_Z m / 10) 11 ltac:(lia)
              ltac:(rewrite P11; lra)) as (-> & _ & Ec).
  rewrite P42 in Ec.
  exists (double (inject_Z m / 10)). split; [reflexivity |].
  set (c := double (inject_Z m / 10)) in *.
  set (w := (inject_Z m / 10)%Q) in *.
  assert (E : (w == inject_Z m * (1 # 10))%Q) by (unfold w; field).
  rewrite P37. split; lra.
Qed.

(** C9, as the code has it: on a non-empty sequence with greatest sample
    [mx] and least sample [mn], the average, max and min of
    [evaluateTemperature] and the average and max of [evaluateWind] are the
    binary64 mean (the sum accumulated from the first sample to the last,
    divided by the length), [mx] and [mn], each rounded to one decimal by
    [Math.round(x * 10) / 10] in binary64: the product is rounded to the
    nearest integer, a tie going towards +Infinity, and divided by 10.  For a
    non-negative product this is rounding half away from zero; a negative
    tie moves towards zero, so an average of -0.25 is reported as -0.2.  For
    at most 1024 samples within [-1024, 1024], each reported value lies
    within [0.05 + 2 ^ -28] of the exact statistic. *)
Theorem evaluate_rounds_half_up (xs : list Q) :
  xs <> [] ->
  exists mx mn,
    Spec.is_max xs mx /\ Spec.is_min xs mn /\
    t_average (evaluateTemperature xs) = Spec.tenths64 (Spec.mean64 xs) /\
    t_max (evaluateTemperature xs) = Spec.tenths64 (Fin mx) /\
    t_min (evaluateTemperature xs) = Spec.tenths64 (Fin mn) /\
    w_average (evaluateWind xs) = Spec.tenths64 (Spec.mean64 xs) /\
    w_max (evaluateWind xs) = Spec.tenths64 (Fin mx) /\
    (forall q, (0 <= q)%Q -> Spec.half_up q = Spec.round_half_away q) /\
    t_average (evaluateTemperature [- (1 # 4)]%Q) = fl (- (2 # 10)) /\
    (length xs <= 1024 ->
     (forall x, In x xs -> (Qabs x <= 1024)%Q) ->
     exists a hi lo,
       Spec.tenths64 (Spec.mean64 xs) = Fin a
       /\ Spec.tenths64 (Fin mx) = Fin hi
       /\ Spec.tenths64 (Fin mn) = Fin lo
       /\ (Qabs (a - Spec.mean xs) <= (1 # 20) + pow2 (-28))%Q
       /\ (Qabs (hi - mx) <= (1 # 20) + pow2 (-28))%Q
       /\ (Qabs (lo - mn) <= (1 # 20) + pow2 (-28))%Q).
Proof.
  intros Hne.
  destruct (evaluate_statistics xs Hne)
    as (mx & mn & Hmx & Hmn & E1 & E2 & E3 & E4 & E5).
  exists mx, mn.
  repeat (split; [assumption |]).
  split; [apply half_up_nonneg |]. split; [vm_compute; reflexivity |].
  intros Hlen Hall.
  assert (Hall' : forall x, In x xs -> (- 1024 <= x <= 1024)%Q).
  { intros x Hx. specialize (Hall x Hx). apply Qabs_le_iff in Hall.
    split; [| tauto]. destruct Hall as [H _].
    change (-1024)%Q with (- (1024))%Q. exact H. }
  assert (P37 : (pow2 (-37) == 1 # 137438953472)%Q) by reflexivity.
  assert (P29 : (pow2 (-29) == 1 # 536870912)%Q) by reflexivity.
  assert (P28 : (pow2 (-28) == 1 # 268435456)%Q) by reflexivity.
  destruct (mean64_near xs Hne Hlen Hall') as (a0 & Ea0 & _ & Ha0 & Hnear).
  destruct (round1_near a0 Ha0) as (a & Ea & Da).
  pose proof (Hall' mx (proj1 Hmx)) as Bmx.
  pose proof (Hall' mn (proj1 Hmn)) as Bmn.
  destruct (round1_near mx ltac:(lra)) as (hi & Ehi & Dhi).
  destruct (round1_near mn ltac:(lra)) as (lo & Elo & Dlo).
  exists a, hi, lo. rewrite <- !round1_tenths64, Ea0.
  split; [exact Ea |]. split; [exact Ehi |]. split; [exact Elo |].
  rewrite P37 in *. rewrite P29 in *. rewrite P28.
  split; [| split]; apply Qabs_le_iff; split; lra.
Qed.

Lemma evaluate_rounds_half_up_witness :
  exists mx mn,
    Spec.is_max [3; - (1 # 2)]%Q mx /\ Spec.is_min [3; - (1 # 2)]%Q mn /\
    t_average (evaluateTemperature [3; - (1 # 2)]%Q)
    = Spec.tenths64 (Spec.mean64 [3; - (1 # 2)]%Q) /\
    t_max (evaluateTemperature [3; - (1 # 2)]%Q) = Spec.tenths64 (Fin mx) /\
    t_min (evaluateTemperature [3; - (1 # 2)]%Q) = Spec.tenths64 (Fin mn) /\
    w_average (evaluateWind [3; - (1 # 2)]%Q)
    = Spec.tenths64 (Spec.mean64 [3; - (1 # 2)]%Q) /\
    w_max (evaluateWind [3; - (1 # 2)]%Q) = Spec.tenths64 (Fin mx) /\
    (forall q, (0 <= q)%Q -> Spec.half_up q = Spec.round_half_away q) /\
    t_average (evaluateTemperature [- (1 # 4)]%Q) = fl (- (2 # 10)) /\
    (length [3; - (1 # 2)]%Q <= 1024 ->
     (forall x, In x [3; - (1 # 2)]%Q -> (Qabs x <= 1024)%Q) ->
     exists a hi lo,
       Spec.tenths64 (Spec.mean64 [3; - (1 # 2)]%Q) = Fin a
       /\ Spec.tenths64 (Fin mx) = Fin hi
       /\ Spec.tenths64 (Fin mn) = Fin lo
       /\ (Qabs (a - Spec.mean [3; - (1 # 2)]) <= (1 # 20) + pow2 (-28))%Q
       /\ (Qabs (hi - mx) <= (1 # 20) + pow2 (-28))%Q
       /\ (Qabs (lo - mn) <= (1 # 20) + pow2 (-28))%Q).
Proof.
  apply (evaluate_rounds_half_up [3; - (1 # 2)]%Q). discriminate.
Defined.

(** C9 as stated fails twice.  The single temperature -0.25 has average
    -0.25, which half away from zero rounds to -0.3, and
    [evaluateTemperature] reports -0.2.  And the statistics are not the
    exact ones: the temperatures 0.6 and 0.7 have the exact mean 0.65, which
    rounds to 0.7, but their binary64 mean times 10 is 6.499999999999999 and
    the reported average is 0.6. *)
Lemma evaluate_rounds_half_away_counterexample :
  (Spec.mean [- (1 # 4)] == - (1 # 4))%Q
  /\ (Spec.to_1_decimal Spec.round_half_away (Spec.mean [- (1 # 4)])
      == - (3 # 10))%Q
  /\ t_average (evaluateTemperature [- (1 # 4)]%Q) = fl (- (2 # 10))
  /\ fl (- (2 # 10)) <> fl (- (3 # 10))
  /\ (Spec.to_1_decimal Spec.round_half_away (Spec.mean [6 # 10; 7 # 10])
      == 7 # 10)%Q
  /\ t_average (evaluateTemperature [6 # 10; 7 # 10]%Q) = fl (6 # 10)
  /\ fl (6 # 10) <> fl (7 # 10).
Proof.
  vm_compute. repeat split; discriminate.
Qed.

(** ** Arrays *)

Lemma get_nat {A} (xs : list A) (k : nat) :
  get xs (Z.of_nat k) = nth_error xs k.
Proof.
  unfold get. destruct (Z.ltb_spec (Z.of_nat k) 0); [lia |].
  now rewrite Nat2Z.id.
Qed.

Lemma get_Some {A} (xs : list A) (i : Z) (x : A) :
  get xs i = Some x ->
  0 <= i < length xs /\ nth_error xs (Z.to_nat i) = Some x.
Proof.
  unfold get, length. destruct (Z.ltb_spec i 0); [discriminate |].
  intros Hx. split; [| exact Hx].
  assert (Z.to_nat i < List.length xs)%nat
    by (apply nth_error_Some; congruence).
  lia.
Qed.

(** [findIndex] returns the first index whose element passes, and [-1]
    when no element does. *)
Lemma findIndex_from_spec {A} (p : A -> bool) (xs : list A) : forall i,
  (findIndex_from p xs i = -1 /\ forall x, In x xs -> p x = false)
  \/ exists k x,
       findIndex_from p xs i = i + Z.of_nat k /\
       nth_error xs k = Some x /\ p x = true /\
       forall k' y, (k' < k)%nat -> nth_error xs k' = Some y -> p y = false.
Proof.
  induction xs as [| x xs IH]; intros i; simpl.
  - left. split; [reflexivity | intros ? []].
  - destruct (p x) eqn:Hx.
    + right. exists O, x. repeat split; [lia | assumption | lia].
    + destruct (IH (i + 1)) as [[E Hall] | (k & y & E & Hk & Hy & Hbefore)].
      * left. split; [exact E |]. intros z [<- | Hz]; auto.
      * right. exists (S k), y. repeat split; [lia | assumption.. |].
        intros [| k'] z Hlt Hz; simpl in Hz.
        -- now inversion Hz; subst.
        -- apply (Hbefore k' z); [lia | exact Hz].
Qed.

Lemma findIndex_spec {A} (p : A -> bool) (xs : list A) :
  (findIndex p xs = -1 /\ forall x, In x xs -> p x = false)
  \/ exists x,
       get xs (findIndex p xs) = Some x /\ p x = true /\
       forall j y, j < findIndex p xs -> get xs j = Some y -> p y = false.
Proof.
  unfold findIndex.
  destruct (findIndex_from_spec p xs 0) as [H | (k & x & E & Hk & Hx & Hb)];
    [now left | right].
  rewrite E, Z.add_0_l. exists x. rewrite get_nat. repeat split; auto.
  intros j y Hj Hy. apply get_Some in Hy as [Hr Hy].
  apply (Hb (Z.to_nat j) y); [lia | exact Hy].
Qed.

(** ** The nearest sample (specific-instant mode) *)

Lemma ltb_of_Z_PosInf (d : Z) : ltb (of_Z d) PosInf = true.
Proof. reflexivity. Qed.

(** The loop, entered with a best distance [d] found at [best] among the
    samples already seen: it keeps [best] when no later sample is strictly
    nearer, and otherwise ends on the first of the nearest later samples. *)
Lemma nearest_spec (target : Z) (times : list Z) : forall i d best,
  (nearest target times i (of_Z d) best = best /\
   forall t, In t times -> d <= Z.abs (t - target))
  \/ exists k t,
       nearest target times i (of_Z d) best = i + Z.of_nat k /\
       nth_error times k = Some t /\
       Z.abs (t - target) < d /\
       (forall u, In u times -> Z.abs (t - target) <= Z.abs (u - target)) /\
       forall k' u, (k' < k)%nat -> nth_error times k' = Some u ->
                    Z.abs (t - target) < Z.abs (u - target).
Proof.
  induction times as [| t times IH]; intros i d best; cbn [nearest].
  - left. split; [reflexivity | intros ? []].
  - cbv zeta. rewrite ltb_of_Z.
    destruct (Z.ltb_spec (Z.abs (t - target)) d) as [Hlt | Hge].
    + right.
      destruct (IH (i + 1) (Z.abs (t - target)) i)
        as [[E Hall] | (k & u & E & Hk & Hu & Hmin & Hfirst)].
      * exists O, t. rewrite E. repeat split; [lia | assumption | |].
        -- intros u [<- | Hu]; [lia | now apply Hall].
        -- intros k' u Hk'. lia.
      * exists (S k), u. rewrite E. repeat split; [lia | assumption | lia | |].
        -- intros v [<- | Hv]; [lia | now apply Hmin].
        -- intros [| k'] v Hk' Hv; simpl in Hv.
           ++ inversion Hv; subst. lia.
           ++ apply (Hfirst k' v); [lia | exact Hv].
    + destruct (IH (i + 1) d best)
        as [[E Hall] | (k & u & E & Hk & Hu & Hmin & Hfirst)].
      * left. split; [exact E |]. intros u [<- | Hu]; [lia | now apply Hall].
      * right. exists (S k), u. rewrite E.
        repeat split; [lia | assumption | lia | |].
        -- intros v [<- | Hv]; [lia | now apply Hmin].
        -- intros [| k'] v Hk' Hv; simpl in Hv.
           ++ inversion Hv; subst. lia.
           ++ apply (Hfirst k' v); [lia | exact Hv].
Qed.

Lemma In_get {A} (xs : list A) (x : A) :
  In x xs <-> exists j, get xs j = Some x.
Proof.
  split.
  - intros H. apply In_nth_error in H as [k Hk].
    exists (Z.of_nat k). now rewrite get_nat.
  - intros [j Hj]. apply get_Some in Hj as [_ Hj].
    eapply nth_error_In, Hj.
Qed.

(** From the initial state the loop ends on the first nearest sample. *)
Lemma nearest_first_nearest (target : Z) (times : list Z) :
  times <> [] ->
  Spec.first_nearest times target (nearest target times 0 PosInf (-1)).
Proof.
  destruct times as [| t0 rest]; [congruence | intros _].
  cbn [nearest]. cbv zeta. rewrite ltb_of_Z_PosInf.
  unfold Spec.first_nearest.
  destruct (nearest_spec target rest (0 + 1) (Z.abs (t0 - target)) 0)
    as [[E Hall] | (k & u & E & Hk & Hu & Hmin & Hfirst)]; rewrite E.
  - exists t0. split; [reflexivity |]. split.
    + intros j u Hj. assert (Hin : In u (t0 :: rest)) by (apply In_get; eauto).
      destruct Hin as [<- | Hin]; [lia | now apply Hall].
    + intros j u Hj Hget. apply get_Some in Hget. lia.
  - exists u. split; [| split].
    + replace (0 + 1 + Z.of_nat k) with (Z.of_nat (S k)) by lia.
      now rewrite get_nat.
    + intros j v Hj. assert (Hin : In v (t0 :: rest)) by (apply In_get; eauto).
      destruct Hin as [<- | Hin]; [lia | now apply Hmin].
    + intros j v Hj Hget. apply get_Some in Hget as [Hr Hget].
      destruct (Z.to_nat j) as [| k'] eqn:Ej; simpl in Hget.
      * inversion Hget; subst. lia.
      * apply (Hfirst k' v); [lia | exact Hget].
Qed.

(** The index chosen by lines 156-165. *)
Lemma idx_first_nearest (times : list Z) (target : Z) :
  times <> [] ->
  Spec.first_nearest times target (idx times target)
  /\ ((exists j, get times j = Some target) ->
      get times (idx times target) = Some target).
Proof.
  intros Hne. unfold idx. cbv zeta.
  destruct (findIndex_spec (fun t => t =? target) times)
    as [[E Hnone] | (t & Hget & Ht & Hbefore)].
  - rewrite E. change (-1 =? -1) with true. cbv iota.
    split; [now apply nearest_first_nearest |].
    intros [j Hj]. assert (Hin : In target times) by (apply In_get; eauto).
    apply Hnone in Hin. rewrite Z.eqb_refl in Hin. discriminate.
  - apply Z.eqb_eq in Ht. subst t.
    pose proof (get_Some _ _ _ Hget) as [Hr _].
    destruct (Z.eqb_spec (findIndex (fun t => t =? target) times) (-1)) as [E | _];
      [lia |].
    split; [| intros _; exact Hget].
    exists target. split; [exact Hget |]. split.
    + intros j u _. lia.
    + intros j u Hlt Hu. specialize (Hbefore j u Hlt Hu).
      apply Z.eqb_neq in Hbefore. lia.
Qed.

Lemma first_nearest_bounds (times : list Z) (target i : Z) :
  Spec.first_nearest times target i -> 0 <= i < length times.
Proof.
  intros (t & Hget & _). now apply get_Some in Hget.
Qed.

(** C3: in specific-instant mode, on a non-empty series, the selected
    index is an index of the series; when some sample's instant equals the
    target the selected sample is one (its distance to the target is zero);
    and in every case the selected index minimises the absolute time
    difference over the whole series and is the first index that does. *)
Theorem idx_selects_nearest (times : list Z) (targetDate : Z) :
  times <> [] ->
  let i := idx times targetDate in
  0 <= i < length times
  /\ ((exists j, get times j = Some targetDate) ->
      get times i = Some targetDate)
  /\ exists t,
       get times i = Some t /\
       (forall j u, get times j = Some u ->
          Z.abs (t - targetDate) <= Z.abs (u - targetDate)) /\
       (forall j u, j < i -> get times j = Some u ->
          Z.abs (t - targetDate) < Z.abs (u - targetDate)).
Proof.
  intros Hne i.
  destruct (idx_first_nearest times targetDate Hne) as [Hfirst Hexact].
  split; [now apply first_nearest_bounds with targetDate |].
  split; [exact Hexact | exact Hfirst].
Qed.

Lemma idx_selects_nearest_witness :
  let times := [1000; 2000; 3000; 4000] in
  let i := idx times 2500 in
  0 <= i < length times
  /\ ((exists j, get times j = Some 2500) -> get times i = Some 2500)
  /\ exists t,
       get times i = Some t /\
       (forall j u, get times j = Some u ->
          Z.abs (t - 2500) <= Z.abs (u - 2500)) /\
       (forall j u, j < i -> get times j = Some u ->
          Z.abs (t - 2500) < Z.abs (u - 2500)).
Proof.
  apply (idx_selects_nearest [1000; 2000; 3000; 4000] 2500). discriminate.
Defined.

(** ** Slices and index ranges *)

Lemma length_range (s e : Z) : length (range s e) = Z.max 0 (e - s).
Proof.
  unfold range, length. rewrite length_map, length_seq. lia.
Qed.

Lemma firstn_nth_error {A} (xs : list A) : forall n,
  (n <= List.length xs)%nat ->
  map Some (firstn n xs) = map (nth_error xs) (seq 0 n).
Proof.
  induction xs as [| x xs IH]; intros [| n] Hn; simpl in *; try reflexivity.
  - lia.
  - f_equal. rewrite IH by lia. rewrite <- seq_shift, map_map. reflexivity.
Qed.

(** Within the bounds of the array, [slice] is the index range. *)
Lemma slice_samples {A} (xs : list A) (s e : Z) :
  0 <= s <= length xs -> s <= e ->
  map Some (slice xs s e) = Spec.samples xs s (Z.min (length xs) e).
Proof.
  intros Hs He. unfold slice, Spec.samples, range, clip_index.
  destruct (Z.ltb_spec s 0); [lia |].
  destruct (Z.ltb_spec e 0); [lia |].
  rewrite (Z.min_l s) by lia. rewrite (Z.min_comm e).
  set (n := Z.to_nat (Z.min (length xs) e - s)).
  rewrite firstn_nth_error.
  - rewrite map_map. apply map_ext. intros k.
    rewrite nth_error_skipn.
    replace (s + Z.of_nat k) with (Z.of_nat (Z.to_nat s + k)) by lia.
    now rewrite get_nat.
  - rewrite length_skipn. unfold n, length in *. lia.
Qed.

Lemma length_slice {A} (xs : list A) (s e : Z) :
  0 <= s <= length xs -> s <= e ->
  length (slice xs s e) = Z.min (length xs) e - s.
Proof.
  intros Hs He.
  assert (E : length (map Some (slice xs s e))
              = length (Spec.samples xs s (Z.min (length xs) e)))
    by now rewrite slice_samples.
  unfold Spec.samples in E. unfold length at 1 in E.
  rewrite length_map in E. fold (length (slice xs s e)) in E.
  unfold length at 2 in E. rewrite length_map in E.
  fold (length (range s (Z.min (length xs) e))) in E.
  rewrite length_range in E. lia.
Qed.

Lemma length_mapi_from {A B} (f : A -> Z -> B) (xs : list A) : forall i,
  List.length (mapi_from f xs i) = List.length xs.
Proof.
  induction xs as [| x xs IH]; intros i; simpl; [reflexivity |].
  now rewrite IH.
Qed.

Lemma length_mapi {A B} (f : A -> Z -> B) (xs : list A) :
  length (mapi f xs) = length xs.
Proof.
  unfold length, mapi. now rewrite length_mapi_from.
Qed.

Lemma map_mapi_from {A B C} (g : B -> C) (f : A -> Z -> B) (xs : list A) :
  forall i, map g (mapi_from f xs i) = mapi_from (fun x i => g (f x i)) xs i.
Proof.
  induction xs as [| x xs IH]; intros i; simpl; [reflexivity |].
  now rewrite IH.
Qed.

Lemma mapi_from_fst {A} (xs : list A) : forall i,
  mapi_from (fun x _ => x) xs i = xs.
Proof.
  induction xs as [| x xs IH]; intros i; simpl; [reflexivity |].
  now rewrite IH.
Qed.

(** The instants of the points reported for an index range. *)
Lemma range_times (times : list Z) (s e : Z) :
  0 <= s -> e <= length times ->
  map (fun i => Some (nth (Z.to_nat i) times 0)) (range s e)
  = Spec.samples times s e.
Proof.
  intros Hs He. unfold Spec.samples, range. rewrite !map_map.
  apply map_ext_in. intros k Hk. apply in_seq in Hk.
  unfold get. destruct (Z.ltb_spec (s + Z.of_nat k) 0); [lia |].
  symmetry. apply nth_error_nth'. unfold length in He. lia.
Qed.

(** ** The context window (specific-instant mode) *)

Lemma window_bounds (times : list Z) (i : Z) :
  0 <= i < length times ->
  start i = Z.max 0 (i - 6)
  /\ end_ times i = Z.min (length times) (i + 6 + 1)
  /\ 0 <= start i <= i
  /\ i < end_ times i <= length times
  /\ end_ times i - start i <= 13
  /\ (i = 0 -> start i = 0)
  /\ (i = length times - 1 -> end_ times i = length times).
Proof.
  intros Hi. unfold start, end_, window. lia.
Qed.

(** C5: in specific-instant mode, for a series of length [L] and a matched
    index [i] in [0, L), the context window is [max(0, i - 6),
    min(L, i + 6 + 1)): it contains [i], lies within the series, and has at
    most 13 indices; it starts at 0 when [i = 0] and ends at [L] when
    [i = L - 1].  The points and the sub-series analysed by both versions of
    the handler are the samples of exactly this range. *)
Theorem context_window (times : list Z) (i : Z) :
  0 <= i < length times ->
  (start i = Z.max 0 (i - 6)
   /\ end_ times i = Z.min (length times) (i + 6 + 1)
   /\ 0 <= start i <= i
   /\ i < end_ times i <= length times
   /\ 1 <= end_ times i - start i <= 13
   /\ (i = 0 -> start i = 0)
   /\ (i = length times - 1 -> end_ times i = length times))
  /\ forall threshNum targetDate precs temps humidity windSpeed windDirection,
       idx times targetDate = i ->
       let r := Part000.specific threshNum targetDate times precs temps
                  humidity windSpeed windDirection in
       let r' := ServerJs.specific threshNum targetDate times precs in
       map Some (map p_time (sd_contextHours r))
         = Spec.samples times (start i) (end_ times i)
       /\ map p_precipitation (sd_contextHours r)
          = map (elem precs) (range (start i) (end_ times i))
       /\ sd_contextHours r'
          = map (fun p => ServerJs.bare_point (p_time p) (p_precipitation p))
                (sd_contextHours r)
       /\ (length precs = length times ->
           sd_rainProbability r
           = Some (calculateRainProbability
                     (slice precs (start i) (end_ times i))
                     (option_map (fun h => slice h (start i) (end_ times i))
                                 humidity)
                     (end_ times i - start i))
           /\ map Some (slice precs (start i) (end_ times i))
              = Spec.samples precs (start i) (end_ times i)).
Proof.
  intros Hi. pose proof (window_bounds times i Hi) as Hw.
  split; [intuition lia |].
  intros threshNum targetDate precs temps humidity windSpeed windDirection E.
  unfold Part000.specific, ServerJs.specific. cbv zeta.
  cbn [sd_contextHours sd_rainProbability]. rewrite E.
  split; [| split; [| split]].
  - rewrite !map_map. cbn [p_time]. apply range_times; lia.
  - rewrite map_map. reflexivity.
  - rewrite map_map. reflexivity.
  - intros Hlen. split; [reflexivity |].
    rewrite slice_samples by lia. f_equal. lia.
Qed.

Lemma context_window_witness :
  let times := [0; 3600000; 7200000] in
  let i := 0 in
  (start i = Z.max 0 (i - 6)
   /\ end_ times i = Z.min (length times) (i + 6 + 1)
   /\ 0 <= start i <= i
   /\ i < end_ times i <= length times
   /\ 1 <= end_ times i - start i <= 13
   /\ (i = 0 -> start i = 0)
   /\ (i = length times - 1 -> end_ times i = length times))
  /\ forall threshNum targetDate precs temps humidity windSpeed windDirection,
       idx times targetDate = i ->
       let r := Part000.specific threshNum targetDate times precs temps
                  humidity windSpeed windDirection in
       let r' := ServerJs.specific threshNum targetDate times precs in
       map Some (map p_time (sd_contextHours r))
         = Spec.samples times (start i) (end_ times i)
       /\ map p_precipitation (sd_contextHours r)
          = map (elem precs) (range (start i) (end_ times i))
       /\ sd_contextHours r'
          = map (fun p => ServerJs.bare_point (p_time p) (p_precipitation p))
                (sd_contextHours r)
       /\ (length precs = length times ->
           sd_rainProbability r
           = Some (calculateRainProbability
                     (slice precs (start i) (end_ times i))
                     (option_map (fun h => slice h (start i) (end_ times i))
                                 humidity)
                     (end_ times i - start i))
           /\ map Some (slice precs (start i) (end_ times i))
              = Spec.samples precs (start i) (end_ times i)).
Proof.
  apply (context_window [0; 3600000; 7200000] 0). unfold length. simpl. lia.
Defined.

(** ** The forward window *)

Lemma startIdx_spec (times : list Z) (now : Z) :
  times <> [] ->
  0 <= startIdx times now < length times
  /\ (Spec.first_from times now (startIdx times now)
      \/ ((forall j u, get times j = Some u -> u < now)
          /\ startIdx times now = length times - 1)).
Proof.
  intros Hne. unfold startIdx. cbv zeta.
  assert (Hlen : 0 < length times)
    by (destruct times; [congruence | unfold length; simpl; lia]).
  destruct (findIndex_spec (fun t => now <=? t) times)
    as [[E Hnone] | (t & Hget & Ht & Hbefore)].
  - rewrite E. change (-1 =? -1) with true. cbv iota.
    split; [lia |]. right. split; [| reflexivity].
    intros j u Hu. assert (Hin : In u times) by (apply In_get; eauto).
    apply Hnone in Hin. apply Z.leb_gt in Hin. exact Hin.
  - pose proof (get_Some _ _ _ Hget) as [Hr _].
    destruct (Z.eqb_spec (findIndex (fun t => now <=? t) times) (-1)) as [E | _];
      [lia |].
    split; [exact Hr |]. left. exists t. split; [exact Hget |].
    split; [now apply Z.leb_le |].
    intros j u Hlt Hu. specialize (Hbefore j u Hlt Hu).
    now apply Z.leb_gt in Hbefore.
Qed.

Lemma forward_points_times {B} (g : B -> Z) (f : Z -> Z -> B) (ts : list Z) :
  (forall t i, g (f t i) = t) -> map g (mapi f ts) = ts.
Proof.
  intros H. unfold mapi. rewrite map_mapi_from.
  rewrite <- (mapi_from_fst ts 0) at 2.
  generalize 0. induction ts as [| t ts IH]; intros i; simpl; [reflexivity |].
  now rewrite H, IH.
Qed.

(** C4: in forward mode, on a non-empty series and with a requested number
    of hours of at least 1, the start index is the first sample whose
    instant is at or after the reference instant, or the last index when
    there is none; the points reported by both versions of the handler are
    the samples of [startIdx, min(length, startIdx + hoursNum)), and
    [hoursAnalyzed] is the length of that range. *)
Theorem forward_window (times : list Z) (now hoursNum : Z) :
  times <> [] ->
  1 <= hoursNum ->
  let s := startIdx times now in
  let e := Z.min (length times) (s + hoursNum) in
  (Spec.first_from times now s
   \/ ((forall j u, get times j = Some u -> u < now) /\ s = length times - 1))
  /\ 0 <= s < e /\ e <= length times
  /\ forall threshNum precs temps humidity windSpeed windDirection,
       let r := Part000.forward now hoursNum threshNum times precs temps
                  humidity windSpeed windDirection in
       let r' := ServerJs.forward now hoursNum threshNum times precs in
       map Some (map p_time (nh_points r)) = Spec.samples times s e
       /\ nh_hoursAnalyzed r = e - s
       /\ map Some (map p_time (nh_points r')) = Spec.samples times s e
       /\ nh_hoursAnalyzed r' = e - s
       /\ (length precs = length times ->
           map Some (slice precs s (s + hoursNum)) = Spec.samples precs s e).
Proof.
  intros Hne Hh s e.
  destruct (startIdx_spec times now Hne) as [Hs Hfirst]. fold s in Hs, Hfirst.
  split; [exact Hfirst |]. split; [unfold e; lia |]. split; [unfold e; lia |].
  intros threshNum precs temps humidity windSpeed windDirection.
  unfold Part000.forward, ServerJs.forward. cbv zeta.
  cbn [nh_points nh_hoursAnalyzed]. fold s.
  rewrite !length_mapi, !length_slice by lia.
  rewrite !forward_points_times by reflexivity.
  rewrite !slice_samples by lia. fold e.
  repeat split.
  intros Hlen. rewrite slice_samples by lia. unfold e. now rewrite Hlen.
Qed.

Lemma forward_window_witness :
  let times := [1000; 2000; 3000; 4000] in
  let now := 2500 in
  let hoursNum := 12 in
  let s := startIdx times now in
  let e := Z.min (length times) (s + hoursNum) in
  (Spec.first_from times now s
   \/ ((forall j u, get times j = Some u -> u < now) /\ s = length times - 1))
  /\ 0 <= s < e /\ e <= length times
  /\ forall threshNum precs temps humidity windSpeed windDirection,
       let r := Part000.forward now hoursNum threshNum times precs temps
                  humidity windSpeed windDirection in
       let r' := ServerJs.forward now hoursNum threshNum times precs in
       map Some (map p_time (nh_points r)) = Spec.samples times s e
       /\ nh_hoursAnalyzed r = e - s
       /\ map Some (map p_time (nh_points r')) = Spec.samples times s e
       /\ nh_hoursAnalyzed r' = e - s
       /\ (length precs = length times ->
           map Some (slice precs s (s + hoursNum)) = Spec.samples precs s e).
Proof.
  apply (forward_window [1000; 2000; 3000; 4000] 2500 12);
    [discriminate | lia].
Defined.

(** ** The rain flag of a requested date *)

Lemma get_in_range {A} (xs : list A) (i : Z) :
  0 <= i < length xs -> exists x, get xs i = Some x.
Proof.
  intros Hi. unfold get, length in *.
  destruct (Z.ltb_spec i 0); [lia |].
  destruct (nth_error xs (Z.to_nat i)) as [x |] eqn:E; [now exists x |].
  apply nth_error_None in E. lia.
Qed.

(** C1, as the code has it: in specific-instant mode, on a non-empty series
    whose precipitation array is as long as its time array, [willRain] is
    true if and only if the precipitation of the sample at the matched index
    is at least the threshold.  That sample lies in the context window, so a
    true flag does mean that some sample of the window reaches the threshold;
    the other samples of the window play no part.  Both versions of the
    handler report the same flag. *)
Theorem willRain_at_matched_index (threshNum : num) (targetDate : Z)
    (times : list Z) (precs temps : list Q) (humidity : option (list Q))
    (windSpeed : list Q) (windDirection : option (list Q)) :
  times <> [] ->
  length precs = length times ->
  let i := idx times targetDate in
  let r := Part000.specific threshNum targetDate times precs temps humidity
             windSpeed windDirection in
  let r' := ServerJs.specific threshNum targetDate times precs in
  (sd_willRain r = true <->
   exists p, get precs i = Some p /\ geb (Fin p) threshNum = true)
  /\ sd_willRain r' = sd_willRain r
  /\ (sd_willRain r = true ->
      exists j p, start i <= j < end_ times i /\ get precs j = Some p /\
                  geb (Fin p) threshNum = true).
Proof.
  intros Hne Hlen i r r'.
  destruct (idx_first_nearest times targetDate Hne) as [Hfirst _].
  apply first_nearest_bounds in Hfirst. fold i in Hfirst.
  destruct (get_in_range precs i) as [p Hp]; [lia |].
  assert (E : sd_willRain r = geb (Fin p) threshNum).
  { unfold r, Part000.specific. cbv zeta. cbn [sd_willRain].
    fold i. now rewrite Hp. }
  split; [| split].
  - rewrite E. split.
    + intros H. now exists p.
    + intros (p' & Hp' & H). congruence.
  - unfold r', ServerJs.specific. cbv zeta. cbn [sd_willRain].
    fold i. rewrite Hp. now rewrite E.
  - rewrite E. intros H. exists i, p.
    pose proof (window_bounds times i Hfirst). intuition lia.
Qed.

Lemma willRain_at_matched_index_witness :
  let threshNum := Fin (1 # 10) in
  let targetDate := 3600000 in
  let times := [0; 3600000] in
  let precs := [0; 1 # 2]%Q in
  let i := idx times targetDate in
  let r := Part000.specific threshNum targetDate times precs [20; 21]%Q None
             [3; 4]%Q None in
  let r' := ServerJs.specific threshNum targetDate times precs in
  (sd_willRain r = true <->
   exists p, get precs i = Some p /\ geb (Fin p) threshNum = true)
  /\ sd_willRain r' = sd_willRain r
  /\ (sd_willRain r = true ->
      exists j p, start i <= j < end_ times i /\ get precs j = Some p /\
                  geb (Fin p) threshNum = true).
Proof.
  apply (willRain_at_matched_index (Fin (1 # 10)) 3600000 [0; 3600000]
           [0; 1 # 2]%Q [20; 21]%Q None [3; 4]%Q None);
    [discriminate | reflexivity].
Defined.

(** C1 as stated fails: with the samples 0 mm at 00:00 and 0.5 mm at 01:00,
    the threshold 0.1 and the target 00:00, the matched index is 0 and the
    window is [0, 2); its sample at index 1 reaches the threshold, and
    [willRain] is false in both versions of the handler. *)
Lemma willRain_window_counterexample :
  let threshNum := Fin (1 # 10) in
  let times := [0; 3600000] in
  let precs := [0; 1 # 2]%Q in
  let i := idx times 0 in
  let r := Part000.specific threshNum 0 times precs [20; 21]%Q None
             [3; 4]%Q None in
  let r' := ServerJs.specific threshNum 0 times precs in
  i = 0 /\ start i = 0 /\ end_ times i = 2
  /\ get precs 1 = Some (1 # 2)%Q /\ geb (Fin (1 # 2)) threshNum = true
  /\ sd_willRain r = false /\ sd_willRain r' = false.
Proof.
  repeat split.
Qed.

(** ** The denominator of the forward probability *)

Lemma forward_hoursAnalyzed (times : list Z) (now hoursNum : Z)
    (threshNum : num) (precs temps : list Q) (humidity : option (list Q))
    (windSpeed : list Q) (windDirection : option (list Q)) :
  times <> [] ->
  1 <= hoursNum ->
  0 <= startIdx times now < length times
  /\ nh_hoursAnalyzed
       (Part000.forward now hoursNum threshNum times precs temps humidity
          windSpeed windDirection)
     = Z.min (length times) (startIdx times now + hoursNum)
       - startIdx times now.
Proof.
  intros Hne Hh. destruct (startIdx_spec times now Hne) as [Hs _].
  split; [exact Hs |].
  unfold Part000.forward. cbv zeta. cbn [nh_hoursAnalyzed].
  now rewrite length_mapi, length_slice by lia.
Qed.

(** C10, as the code has it: in forward mode [rainProbability] is computed
    with the clamped requested hours [hoursNum] as denominator, whatever the
    number of samples analysed.  When fewer than [hoursNum] samples remain
    from [startIdx], [hoursAnalyzed] is below [hoursNum], and the reported
    probability is at most the one the same formula gives with
    [hoursAnalyzed] as denominator. *)
Theorem forward_probability_denominator (times : list Z) (now hoursNum : Z)
    (threshNum : num) (precs temps : list Q) (humidity : option (list Q))
    (windSpeed : list Q) (windDirection : option (list Q)) :
  times <> [] ->
  1 <= hoursNum ->
  let s := startIdx times now in
  let r := Part000.forward now hoursNum threshNum times precs temps humidity
             windSpeed windDirection in
  let slicePrecs := slice precs s (s + hoursNum) in
  let sliceHumidity :=
    option_map (fun h => slice h s (s + hoursNum)) humidity in
  nh_rainProbability r
  = Some (calculateRainProbability slicePrecs sliceHumidity hoursNum)
  /\ (length times - s < hoursNum ->
      1 <= nh_hoursAnalyzed r < hoursNum
      /\ exists a b,
           nh_rainProbability r = Some (of_Z a)
           /\ calculateRainProbability slicePrecs sliceHumidity
                (nh_hoursAnalyzed r) = of_Z b
           /\ 0 <= a <= b /\ b <= 100).
Proof.
  intros Hne Hh s r slicePrecs sliceHumidity.
  split; [reflexivity |]. intros Hfew.
  destruct (forward_hoursAnalyzed times now hoursNum threshNum precs temps
              humidity windSpeed windDirection Hne Hh) as [Hs Hn].
  fold s r in Hs, Hn.
  assert (Hlo : 1 <= nh_hoursAnalyzed r < hoursNum) by lia.
  split; [exact Hlo |].
  destruct (calculateRainProbability_pos slicePrecs sliceHumidity hoursNum Hh)
    as (a & Ea & Ha).
  destruct (calculateRainProbability_pos slicePrecs sliceHumidity
              (nh_hoursAnalyzed r)) as (b & Eb & Hb); [lia |].
  exists a, b.
  split; [change (nh_rainProbability r) with
            (Some (calculateRainProbability slicePrecs sliceHumidity hoursNum));
          now rewrite Ea |].
  split; [exact Eb |].
  pose proof (calculateRainProbability_antitone slicePrecs sliceHumidity
                hoursNum (nh_hoursAnalyzed r) a b ltac:(lia) Ea Eb).
  lia.
Qed.

Lemma forward_probability_denominator_witness :
  let times := [0; 3600000] in
  let now := 1000 in
  let hoursNum := 12 in
  let threshNum := Fin (1 # 10) in
  let precs := [0; 1]%Q in
  let temps := [20; 21]%Q in
  let windSpeed := [3; 4]%Q in
  let s := startIdx times now in
  let r := Part000.forward now hoursNum threshNum times precs temps None
             windSpeed None in
  let slicePrecs := slice precs s (s + hoursNum) in
  let sliceHumidity :=
    option_map (fun h => slice h s (s + hoursNum)) (@None (list Q)) in
  nh_rainProbability r
  = Some (calculateRainProbability slicePrecs sliceHumidity hoursNum)
  /\ (length times - s < hoursNum ->
      1 <= nh_hoursAnalyzed r < hoursNum
      /\ exists a b,
           nh_rainProbability r = Some (of_Z a)
           /\ calculateRainProbability slicePrecs sliceHumidity
                (nh_hoursAnalyzed r) = of_Z b
           /\ 0 <= a <= b /\ b <= 100).
Proof.
  apply (forward_probability_denominator [0; 3600000] 1000 12 (Fin (1 # 10))
           [0; 1]%Q [20; 21]%Q None [3; 4]%Q None);
    [discriminate | lia].
Defined.

(** C10 as stated fails in its last part: with one remaining sample and no
    rain, [hoursNum = 12] exceeds [hoursAnalyzed = 1], and the probability is
    0 with either denominator, so it is not lower. *)
Lemma forward_probability_not_lower_counterexample :
  let r := Part000.forward 0 12 (Fin (1 # 10)) [0] [0]%Q [20]%Q None [3]%Q
             None in
  startIdx [0] 0 = 0
  /\ length [0] - startIdx [0] 0 < 12
  /\ nh_hoursAnalyzed r = 1
  /\ nh_rainProbability r = Some (of_Z 0)
  /\ calculateRainProbability (slice [0]%Q 0 (0 + 12)) None (nh_hoursAnalyzed r)
     = of_Z 0.
Proof.
  vm_compute. repeat split.
Qed.

(** ** The two modes of the handler *)

(** With coordinates, a date that parses and a complete payload, the
    handler makes one outbound call for the UTC day of the date and answers
    with [specific]. *)
Lemma willitrain_specific_date (rt : runtime) (q : query) (d : Z)
    (data : payload) (h : hourly_data) (ts : list Z)
    (ps temps ws : list (option Q)) :
  truthy (q_lat q) = true -> truthy (q_lon q) = true ->
  truthy (q_date q) = true ->
  Date_parse rt (default ""%string (q_date q)) = Some d ->
  hourly data = Some h -> time h = Some ts -> precipitation h = Some ps ->
  temperature_2m h = Some temps -> wind_speed_10m h = Some ws ->
  run (Part000.willitrain rt q) (Ok data)
  = (ok (SpecificDate
           (Part000.specific (threshNum rt q) d ts (map Number ps)
              (map Number temps)
              (option_map (map Number) (relative_humidity_2m h))
              (map Number ws)
              (option_map (map Number) (wind_direction_10m h)))),
     [mk_request q Part000.vars (Some (utc_day d))])
  /\ run (ServerJs.willitrain rt q) (Ok data)
     = (ok (SpecificDate
              (ServerJs.specific (threshNum rt q) d ts (map Number ps))),
        [mk_request q ServerJs.vars (Some (utc_day d))]).
Proof.
  intros Hlat Hlon Hdate Hparse Hh Hts Hps Htemps Hws.
  unfold Part000.willitrain, ServerJs.willitrain.
  rewrite Hlat, Hlon, Hdate, Hparse. cbn [negb orb run].
  unfold Part000.after_fetch, Part000.analyse, ServerJs.after_fetch,
    ServerJs.analyse.
  now rewrite Hh, Hts, Hps, Htemps, Hws.
Qed.

(** With coordinates, no date (or an empty one) and a complete payload,
    the handler makes one outbound call without a date range and answers
    with [forward], from the clock of the runtime. *)
Lemma willitrain_next_hours (rt : runtime) (q : query)
    (data : payload) (h : hourly_data) (ts : list Z)
    (ps temps ws : list (option Q)) :
  truthy (q_lat q) = true -> truthy (q_lon q) = true ->
  truthy (q_date q) = false ->
  hourly data = Some h -> time h = Some ts -> precipitation h = Some ps ->
  temperature_2m h = Some temps -> wind_speed_10m h = Some ws ->
  run (Part000.willitrain rt q) (Ok data)
  = (ok (NextHours
           (Part000.forward (now rt) (hoursNum rt q) (threshNum rt q) ts
              (map Number ps) (map Number temps)
              (option_map (map Number) (relative_humidity_2m h))
              (map Number ws)
              (option_map (map Number) (wind_direction_10m h)))),
     [mk_request q Part000.vars None])
  /\ run (ServerJs.willitrain rt q) (Ok data)
     = (ok (NextHours
              (ServerJs.forward (now rt) (hoursNum rt q) (threshNum rt q) ts
                 (map Number ps))),
        [mk_request q ServerJs.vars None]).
Proof.
  intros Hlat Hlon Hdate Hh Hts Hps Htemps Hws.
  unfold Part000.willitrain, ServerJs.willitrain.
  rewrite Hlat, Hlon, Hdate. cbn [negb orb run].
  unfold Part000.after_fetch, Part000.analyse, ServerJs.after_fetch,
    ServerJs.analyse.
  now rewrite Hh, Hts, Hps, Htemps, Hws.
Qed.

(** The forward example of the specification: 24 hourly samples from the
    reference instant on, 0.5 mm at hours 10 and 11, 12 hours requested. *)
Example forward_two_of_twelve :
  let times := map (fun k => 3600000 * Z.of_nat k) (seq 0 24) in
  let precs := (repeat 0 10 ++ [1 # 2; 1 # 2] ++ repeat 0 12)%Q in
  let r := Part000.forward 0 12 (Fin (1 # 10)) times precs (repeat 20%Q 24)
             None (repeat 3%Q 24) None in
  nh_willRain r = true
  /\ nh_rainProbability r = Some (of_Z 17)
  /\ nh_maxPrecipitationMm r = (1 # 2)%Q
  /\ nh_hoursAnalyzed r = 12.
Proof. vm_compute. repeat split. Qed.

(** ** The query parameters *)

Lemma or_int_spec (x : option Z) (d : Z) :
  or_int x d = match x with
               | Some n => if n =? 0 then d else n
               | None => d
               end.
Proof.
  destruct x as [[| n | n] |]; reflexivity.
Qed.

(** C7, as the code has it: the effective hours are the integer parse of
    the [hours] value (of ["12"] when it is absent) clamped to [1, 168],
    except that the default 12 is used when the parse is [NaN] or zero; they
    always lie in [1, 168].  The effective threshold is the numeric parse of
    the [threshold] value (of ["0.1"] when it is absent), except that the
    default 0.1 is used when the parse is [NaN] or zero. *)
Theorem effective_parameters (rt : runtime) (q : query) :
  let hours := default "12"%string (q_hours q) in
  let threshold := default "0.1"%string (q_threshold q) in
  (forall n, parseInt10 rt hours = Some n -> n <> 0 ->
             hoursNum rt q = Spec.clamp n)
  /\ (parseInt10 rt hours = None \/ parseInt10 rt hours = Some 0 ->
      hoursNum rt q = 12)
  /\ 1 <= hoursNum rt q <= 168
  /\ (parseFloat rt threshold = NaN
      \/ (exists z, parseFloat rt threshold = Fin z /\ (z == 0)%Q) ->
      threshNum rt q = Fin (1 # 10))
  /\ (parseFloat rt threshold <> NaN ->
      (forall z, parseFloat rt threshold = Fin z -> ~ (z == 0)%Q) ->
      threshNum rt q = parseFloat rt threshold).
Proof.
  intros hours threshold. unfold hoursNum, threshNum. cbv zeta.
  fold hours threshold. rewrite or_int_spec.
  split; [| split; [| split; [| split]]].
  - intros n -> Hn. apply Z.eqb_neq in Hn. now rewrite Hn.
  - intros [-> | ->]; reflexivity.
  - destruct (parseInt10 rt hours) as [n |]; [destruct (n =? 0) |]; lia.
  - unfold or_num, falsy. intros [-> | (z & -> & Hz)]; [reflexivity |].
    apply Qeq_bool_iff in Hz. now rewrite Hz.
  - unfold or_num, falsy. intros Hnan Hzero.
    destruct (parseFloat rt threshold) as [| | z |]; try reflexivity;
      [congruence |].
    destruct (Qeq_bool z 0) eqn:E; [| reflexivity].
    apply Qeq_bool_iff in E. now elim (Hzero z eq_refl).
Qed.

Lemma effective_parameters_witness :
  let rt := Reference.runtime_at 0 in
  let q := {| q_lat := Some "1"%string; q_lon := Some "2"%string;
              q_date := None; q_hours := Some "500"%string;
              q_threshold := Some "2.5"%string |} in
  hoursNum rt q = Spec.clamp 500 /\ threshNum rt q = parseFloat rt "2.5".
Proof.
  intros rt q.
  destruct (effective_parameters rt q) as (Hhours & _ & _ & _ & Hthreshold).
  split.
  - apply Hhours; [reflexivity | lia].
  - apply Hthreshold; [discriminate |].
    intros z E. vm_compute in E. injection E as <-.
    intros H. vm_compute in H. discriminate.
Defined.

(** C7 as stated fails at zero: for [hours=0] the integer parse is 0,
    whose clamp to [1, 168] is 1, and the effective hours are 12; for
    [threshold=0] the numeric parse is 0 and the effective threshold is
    0.1. *)
Lemma effective_parameters_counterexample :
  let rt := Reference.runtime_at 0 in
  let q := {| q_lat := Some "1"%string; q_lon := Some "2"%string;
              q_date := None; q_hours := Some "0"%string;
              q_threshold := Some "0"%string |} in
  parseInt10 rt "0" = Some 0
  /\ Spec.clamp 0 = 1
  /\ hoursNum rt q = 12
  /\ parseFloat rt "0" = Fin 0
  /\ threshNum rt q = Fin (1 # 10).
Proof.
  repeat split.
Qed.

(** ** A malformed date *)

(** C8, as the code has it: a request whose [date] value is not empty and
    does not parse as a valid instant is answered with status 400 and an
    error payload, and no outbound call is made, in both versions of the
    handler; the error is the missing coordinates when [lat] or [lon] is
    missing, and the invalid date otherwise.  (An empty [date] value counts
    as no date at all: the request is served in forward mode.) *)
Theorem invalid_date_rejected (rt : runtime) (q : query) (out : fetch_outcome) :
  truthy (q_date q) = true ->
  Date_parse rt (default ""%string (q_date q)) = None ->
  let msg :=
    if truthy (q_lat q) && truthy (q_lon q)
    then "invalid date"%string else "lat and lon are required"%string in
  run (Part000.willitrain rt q) out = (error 400 msg, [])
  /\ run (ServerJs.willitrain rt q) out = (error 400 msg, []).
Proof.
  intros Hdate Hparse.
  unfold Part000.willitrain, ServerJs.willitrain.
  rewrite Hdate, Hparse.
  destruct (truthy (q_lat q)), (truthy (q_lon q)); split; reflexivity.
Qed.

Lemma invalid_date_rejected_witness :
  let rt := Reference.runtime_at 0 in
  let q := {| q_lat := Some "-34.6"%string; q_lon := Some "-58.4"%string;
              q_date := Some "tomorrow"%string; q_hours := None;
              q_threshold := None |} in
  run (Part000.willitrain rt q) Rejected = (error 400 "invalid date", [])
  /\ run (ServerJs.willitrain rt q) Rejected = (error 400 "invalid date", []).
Proof.
  apply (invalid_date_rejected (Reference.runtime_at 0)
           {| q_lat := Some "-34.6"%string; q_lon := Some "-58.4"%string;
              q_date := Some "tomorrow"%string; q_hours := None;
              q_threshold := None |} Rejected);
    reflexivity.
Defined.

(** C8 as stated fails on an empty [date] value: it does not parse as an
    instant, yet the handler makes the outbound call and, on a well-formed
    payload, answers 200 in forward mode. *)
Lemma empty_date_counterexample :
  let rt := Reference.runtime_at 0 in
  let q := {| q_lat := Some "-34.6"%string; q_lon := Some "-58.4"%string;
              q_date := Some ""%string; q_hours := None;
              q_threshold := None |} in
  let data := {| hourly := Some {| time := Some [0];
                                   precipitation := Some [Some 0%Q];
                                   temperature_2m := Some [Some 20%Q];
                                   relative_humidity_2m := None;
                                   wind_speed_10m := Some [Some 3%Q];
                                   wind_direction_10m := None |} |} in
  Date_parse rt "" = None
  /\ status (fst (run (Part000.willitrain rt q) (Ok data))) = 200
  /\ snd (run (Part000.willitrain rt q) (Ok data))
     = [mk_request q Part000.vars None]
  /\ status (fst (run (ServerJs.willitrain rt q) (Ok data))) = 200
  /\ snd (run (ServerJs.willitrain rt q) (Ok data))
     = [mk_request q ServerJs.vars None].
Proof.
  repeat split.
Qed.

(** * Further properties of the code *)

(** ** [calculateRainProbability] beyond its formula *)






Lemma rainHours_none (precipitation : list Q) :
  (forall p, In p precipitation -> (p <= 1 # 10)%Q) ->
  Spec.rainHours precipitation = 0.
Proof.
  intros Hall. unfold Spec.rainHours.
  induction precipitation as [| p ps IH]; [reflexivity |].
  cbn [filter]. destruct (Qlt_le_dec (1 # 10) p) as [H | _].
  - exfalso. specialize (Hall p (or_introl eq_refl)). lra.
  - apply IH. intros q Hq. apply Hall. now right.
Qed.


Lemma div_zero (h : Z) : 0 < h -> div (of_Z 0) (of_Z h) = of_Z 0.
Proof.
  intros Hh. unfold of_Z at 1. rewrite div_of_Z by exact Hh.
  pose proof (double_of_Z_pos h Hh) as Hd.
  change (double (inject_Z 0)) with 0%Q.
  rewrite (fl_comp _ 0) by (field; lra).
  vm_compute. reflexivity.
Qed.



(** X3: when no sample exceeds 0.1 mm and [hours] is positive, the result
    is the humidity bonus alone: 10 when the binary64 mean of the humidity
    exceeds 80, 5 when it exceeds 60, and 0 otherwise or without humidity.
    For at most 1024 humidity samples within [-1024, 1024] whose exact mean
    is further than [2 ^ -29] from 60 and from 80, it is the bonus of the
    exact mean. *)
Theorem calculateRainProbability_dry (precipitation : list Q)
    (humidity : option (list Q)) (hours : Z) :
  1 <= hours ->
  (forall p, In p precipitation -> (p <= 1 # 10)%Q) ->
  calculateRainProbability precipitation humidity hours
  = of_Z (Spec.humidityBonus64 humidity)
  /\ (Spec.humidityBonus64 humidity = 0
      \/ Spec.humidityBonus64 humidity = 5
      \/ Spec.humidityBonus64 humidity = 10)
  /\ (humidity = None \/ humidity = Some [] ->
      Spec.humidityBonus64 humidity = 0)
  /\ (forall hs,
        humidity = Some hs ->
        length hs <= 1024 ->
        (forall x, In x hs -> (Qabs x <= 1024)%Q) ->
        (pow2 (-29) < Qabs (Spec.mean hs - 60))%Q ->
        (pow2 (-29) < Qabs (Spec.mean hs - 80))%Q ->
        (inject_Z (Spec.humidityBonus64 humidity)
         == Spec.humidityBonus humidity)%Q).
Proof.
  intros Hh Hnone. split; [| split; [| split]].
  - rewrite calculateRainProbability_eq, (rainHours_none _ Hnone).
    rewrite div_zero by lia.
    destruct (humidityBonus64_cases humidity) as [-> | [-> | ->]];
      vm_compute; reflexivity.
  - apply humidityBonus64_cases.
  - intros [-> | ->]; reflexivity.
  - intros hs ->. apply humidityBonus64_exact.
Qed.

Lemma calculateRainProbability_dry_witness :
  calculateRainProbability [0; 1 # 10]%Q
    (Some [792 # 10; 799 # 10; 809 # 10]%Q) 2
  = of_Z (Spec.humidityBonus64 (Some [792 # 10; 799 # 10; 809 # 10]%Q))
  /\ (Spec.humidityBonus64 (Some [792 # 10; 799 # 10; 809 # 10]%Q) = 0
      \/ Spec.humidityBonus64 (Some [792 # 10; 799 # 10; 809 # 10]%Q) = 5
      \/ Spec.humidityBonus64 (Some [792 # 10; 799 # 10; 809 # 10]%Q) = 10)
  /\ (Some [792 # 10; 799 # 10; 809 # 10]%Q = None
      \/ Some [792 # 10; 799 # 10; 809 # 10]%Q = Some [] ->
      Spec.humidityBonus64 (Some [792 # 10; 799 # 10; 809 # 10]%Q) = 0)
  /\ (forall hs,
        Some [792 # 10; 799 # 10; 809 # 10]%Q = Some hs ->
        length hs <= 1024 ->
        (forall x, In x hs -> (Qabs x <= 1024)%Q) ->
        (pow2 (-29) < Qabs (Spec.mean hs - 60))%Q ->
        (pow2 (-29) < Qabs (Spec.mean hs - 80))%Q ->
        (inject_Z
           (Spec.humidityBonus64 (Some [792 # 10; 799 # 10; 809 # 10]%Q))
         == Spec.humidityBonus (Some [792 # 10; 799 # 10; 809 # 10]%Q))%Q).
Proof.
  apply (calculateRainProbability_dry [0; 1 # 10]%Q
           (Some [792 # 10; 799 # 10; 809 # 10]%Q) 2);
    [lia |].
  intros p [<- | [<- | []]]; vm_compute; discriminate.
Defined.

(** ** The statistics of [evaluateTemperature] and [evaluateWind] *)

Lemma div_le (x y : num) (c : Z) :
  0 < c -> leb x y = true -> leb (div x (of_Z c)) (div y (of_Z c)) = true.
Proof.
  intros Hc. pose proof (double_of_Z_pos c Hc) as Hd.
  assert (En : div NegInf (of_Z c) = NegInf).
  { unfold of_Z, div. now rewrite (proj2 (Qltb_ge _ _)) by lra. }
  assert (Ep : div PosInf (of_Z c) = PosInf).
  { unfold of_Z, div. now rewrite (proj2 (Qltb_ge _ _)) by lra. }
  destruct x as [| | a |], y as [| | b |]; cbn [leb]; try discriminate;
    intros H; rewrite ?En, ?Ep, ?div_of_Z by exact Hc; try reflexivity;
    try (apply fl_le; apply Qle_bool_iff in H; apply double_le in H;
         apply Qdiv_le_l; lra);
    match goal with
    | |- context [fl ?q] =>
        destruct (fl_cases q) as [[-> _] | [[-> _] | [-> _]]]; reflexivity
    end.
Qed.

(** Rounding to one decimal keeps the order. *)
Lemma round1_le (x y : num) :
  leb x y = true -> leb (round1 x) (round1 y) = true.
Proof.
  intros H. unfold round1.
  apply div_le; [lia |]. apply Math_round_le. apply mul_le; [lia | exact H].
Qed.

(** X5: on a non-empty sequence the reported minimum is at most the
    reported maximum.  The reported average need not lie between them: for
    three temperatures of 0.35 the minimum and the maximum are reported as
    0.4 and the average, whose binary64 product by 10 is 3.499999999999999,
    as 0.3. *)
Theorem evaluate_statistics_ordered (xs : list Q) :
  xs <> [] ->
  leb (t_min (evaluateTemperature xs)) (t_max (evaluateTemperature xs)) = true
  /\ t_min (evaluateTemperature [35 # 100; 35 # 100; 35 # 100]%Q)
     = fl (4 # 10)
  /\ t_max (evaluateTemperature [35 # 100; 35 # 100; 35 # 100]%Q)
     = fl (4 # 10)
  /\ t_average (evaluateTemperature [35 # 100; 35 # 100; 35 # 100]%Q)
     = fl (3 # 10).
Proof.
  intros Hne. split; [| vm_compute; repeat split].
  destruct (Math_max_of_is_max _ Hne) as (mx & Emx & Hin & _).
  destruct (Math_min_of_is_min _ Hne) as (mn & Emn & _ & Hmn).
  unfold evaluateTemperature. cbn [t_min t_max]. rewrite Emx, Emn.
  apply round1_le. cbn [leb]. apply Qle_bool_iff. now apply Hmn.
Qed.

Lemma evaluate_statistics_ordered_witness :
  leb (t_min (evaluateTemperature [12; - (7 # 2); 31]%Q))
      (t_max (evaluateTemperature [12; - (7 # 2); 31]%Q)) = true
  /\ t_min (evaluateTemperature [35 # 100; 35 # 100; 35 # 100]%Q)
     = fl (4 # 10)
  /\ t_max (evaluateTemperature [35 # 100; 35 # 100; 35 # 100]%Q)
     = fl (4 # 10)
  /\ t_average (evaluateTemperature [35 # 100; 35 # 100; 35 # 100]%Q)
     = fl (3 # 10).
Proof.
  apply (evaluate_statistics_ordered [12; - (7 # 2); 31]%Q). discriminate.
Defined.

(** X6: on a non-empty sequence the wind status is [Mucho] exactly when
    some sample exceeds 20; [Comun] exactly when no sample exceeds 20 and the
    binary64 mean exceeds 10; and [Poco] exactly when no sample exceeds 20
    and the binary64 mean does not exceed 10.  The mean is neither the exact
    one nor the rounded average that is reported: the speeds 4.4, 11.8 and
    13.8 have the exact mean 10 and the binary64 mean 10.000000000000002,
    and their status is [Comun].  For at most 1024 speeds within
    [-1024, 1024] whose exact mean is further than [2 ^ -29] from 10, the
    binary64 mean exceeds 10 exactly when the exact mean does. *)
Theorem evaluateWind_status (windSpeeds : list Q) :
  windSpeeds <> [] ->
  let status := w_status (evaluateWind windSpeeds) in
  (status = Mucho <-> exists x, In x windSpeeds /\ (20 < x)%Q)
  /\ (status = Comun <->
      (forall x, In x windSpeeds -> (x <= 20)%Q)
      /\ gtb (Spec.mean64 windSpeeds) (of_Z 10) = true)
  /\ (status = Poco <->
      (forall x, In x windSpeeds -> (x <= 20)%Q)
      /\ gtb (Spec.mean64 windSpeeds) (of_Z 10) = false)
  /\ w_status (evaluateWind [44 # 10; 118 # 10; 138 # 10]%Q) = Comun
  /\ (Spec.mean [44 # 10; 118 # 10; 138 # 10] == 10)%Q
  /\ (length windSpeeds <= 1024 ->
      (forall x, In x windSpeeds -> (Qabs x <= 1024)%Q) ->
      (pow2 (-29) < Qabs (Spec.mean windSpeeds - 10))%Q ->
      (gtb (Spec.mean64 windSpeeds) (of_Z 10) = true
       <-> (10 < Spec.mean windSpeeds)%Q)).
Proof.
  intros Hne status.
  destruct (Math_max_of_is_max _ Hne) as (mx & Emx & Hin & Hmx).
  assert (E : status = if Qlt_le_dec 20 mx then Mucho
                       else if gtb (Spec.mean64 windSpeeds) (of_Z 10)
                            then Comun else Poco).
  { unfold status, evaluateWind. cbn [w_status].
    rewrite Emx, average_mean64, gtb_Fin_of_Z.
    change (inject_Z 20) with 20%Q.
    destruct (Qlt_le_dec 20 mx); reflexivity. }
  assert (Hsome : (exists x, In x windSpeeds /\ (20 < x)%Q) <-> (20 < mx)%Q).
  { split.
    - intros (x & Hx & H). specialize (Hmx x Hx). lra.
    - intros H. now exists mx. }
  assert (Hall : (forall x, In x windSpeeds -> (x <= 20)%Q) <-> (mx <= 20)%Q).
  { split.
    - intros H. now apply H.
    - intros H x Hx. specialize (Hmx x Hx). lra. }
  rewrite Hsome, Hall, E.
  split; [| split; [| split; [| split; [vm_compute; reflexivity |
                                        split; [vm_compute; reflexivity |]]]]];
    [| | | intros Hlen Hplain Hfar;
           rewrite (mean64_gtb windSpeeds 10 Hne Hlen Hplain Hfar);
           change (inject_Z 10) with 10%Q;
           destruct (Qlt_le_dec 10 (Spec.mean windSpeeds));
           split; intros H; try reflexivity; try assumption;
           first [discriminate | exfalso; lra]];
    destruct (Qlt_le_dec 20 mx);
    try destruct (gtb (Spec.mean64 windSpeeds) (of_Z 10));
    (split; [intros H | intros H]);
    try reflexivity; try discriminate; try lra;
    try (split; [lra | reflexivity]);
    try (destruct H as [H1 H2]; first [discriminate | exfalso; lra]).
Qed.

Lemma evaluateWind_status_witness :
  let status := w_status (evaluateWind [8; 15; 12]%Q) in
  (status = Mucho <-> exists x, In x [8; 15; 12]%Q /\ (20 < x)%Q)
  /\ (status = Comun <->
      (forall x, In x [8; 15; 12]%Q -> (x <= 20)%Q)
      /\ gtb (Spec.mean64 [8; 15; 12]%Q) (of_Z 10) = true)
  /\ (status = Poco <->
      (forall x, In x [8; 15; 12]%Q -> (x <= 20)%Q)
      /\ gtb (Spec.mean64 [8; 15; 12]%Q) (of_Z 10) = false)
  /\ w_status (evaluateWind [44 # 10; 118 # 10; 138 # 10]%Q) = Comun
  /\ (Spec.mean [44 # 10; 118 # 10; 138 # 10] == 10)%Q
  /\ (length [8; 15; 12]%Q <= 1024 ->
      (forall x, In x [8; 15; 12]%Q -> (Qabs x <= 1024)%Q) ->
      (pow2 (-29) < Qabs (Spec.mean [8; 15; 12] - 10))%Q ->
      (gtb (Spec.mean64 [8; 15; 12]%Q) (of_Z 10) = true
       <-> (10 < Spec.mean [8; 15; 12])%Q)).
Proof.
  apply (evaluateWind_status [8; 15; 12]%Q). discriminate.
Defined.

(** ** The forward answer *)

Lemma fold_maxPrecip (points : list point) : forall a,
  let m := fold_left
             (fun m p =>
                match p_precipitation p with
                | Num q => if Qltb m q then q else m
                | _ => m
                end) points a in
  (a <= m)%Q
  /\ (forall p q, In p points -> p_precipitation p = Num q -> (q <= m)%Q)
  /\ (m = a \/ exists p, In p points /\ p_precipitation p = Num m).
Proof.
  induction points as [| p ps IH]; intros a; cbn [fold_left].
  - split; [lra |]. split; [intros ? ? [] | now left].
  - cbv zeta.
    set (a' := match p_precipitation p with
               | Num q => if Qltb a q then q else a
               | _ => a
               end).
    destruct (IH a') as (Hle & Hub & Hatt). cbv zeta in Hle, Hub, Hatt.
    assert (Ha' : (a <= a')%Q
                  /\ (forall q, p_precipitation p = Num q -> (q <= a')%Q)
                  /\ (a' = a \/ p_precipitation p = Num a')).
    { unfold a'. destruct (p_precipitation p) as [| | q];
        try (split; [lra |]; split; [discriminate | now left]).
      rewrite Qltb_dec. destruct (Qlt_le_dec a q) as [H | H].
      - split; [lra |]. split; [| now right]. intros q' E. inversion E. lra.
      - split; [lra |]. split; [| now left]. intros q' E. inversion E; subst.
        exact H. }
    destruct Ha' as (H1 & H2 & H3).
    split; [lra |]. split.
    + intros p' q [<- | Hin] E.
      * specialize (H2 q E). lra.
      * now apply (Hub p' q).
    + destruct Hatt as [-> | (p' & Hin & E)].
      * destruct H3 as [-> | E]; [now left |].
        right. exists p. split; [now left | exact E].
      * right. exists p'. split; [now right | exact E].
Qed.

Lemma maxPrecipitationMm_bounds_aux (points : list point) :
  (0 <= maxPrecip points)%Q
  /\ (forall p q, In p points -> p_precipitation p = Num q ->
                  (q <= maxPrecip points)%Q)
  /\ (maxPrecip points = 0%Q
      \/ exists p, In p points /\ p_precipitation p = Num (maxPrecip points)).
Proof. apply fold_maxPrecip. Qed.

(** X7: the reported maximum precipitation is never negative, bounds the
    precipitation of every reported point, and is either 0 or the
    precipitation of one of the points. *)
Theorem maxPrecipitationMm_is_max (now hoursNum : Z) (threshNum : num)
    (times : list Z) (precs temps : list Q) (humidity : option (list Q))
    (windSpeed : list Q) (windDirection : option (list Q)) :
  let r := Part000.forward now hoursNum threshNum times precs temps humidity
             windSpeed windDirection in
  let m := nh_maxPrecipitationMm r in
  (0 <= m)%Q
  /\ (forall p q, In p (nh_points r) -> p_precipitation p = Num q -> (q <= m)%Q)
  /\ (m = 0%Q \/ exists p, In p (nh_points r) /\ p_precipitation p = Num m).
Proof.
  intros r m. unfold m, r, Part000.forward. cbv zeta.
  cbn [nh_maxPrecipitationMm nh_points].
  apply maxPrecipitationMm_bounds_aux.
Qed.

Lemma some_reaches_spec (threshNum : num) (points : list point) :
  some_reaches threshNum points = true
  <-> exists p q, In p points /\ p_precipitation p = Num q
                  /\ geb (Fin q) threshNum = true.
Proof.
  unfold some_reaches. rewrite existsb_exists. split.
  - intros (p & Hin & H). unfold value_geb in H.
    destruct (p_precipitation p) as [| | q] eqn:E; try discriminate.
    now exists p, q.
  - intros (p & q & Hin & E & H). exists p. split; [exact Hin |].
    unfold value_geb. now rewrite E.
Qed.

(** X8: for a positive finite threshold, [willRain] in forward mode is
    true exactly when the reported maximum precipitation reaches the
    threshold. *)
Theorem forward_willRain_max (now hoursNum : Z) (t : Q)
    (times : list Z) (precs temps : list Q) (humidity : option (list Q))
    (windSpeed : list Q) (windDirection : option (list Q)) :
  (0 < t)%Q ->
  let r := Part000.forward now hoursNum (Fin t) times precs temps humidity
             windSpeed windDirection in
  nh_willRain r = true <-> (t <= nh_maxPrecipitationMm r)%Q.
Proof.
  intros Ht r.
  destruct (maxPrecipitationMm_bounds_aux (nh_points r)) as (H0 & Hub & Hatt).
  change (nh_willRain r) with (some_reaches (Fin t) (nh_points r)).
  change (nh_maxPrecipitationMm r) with (maxPrecip (nh_points r)).
  rewrite some_reaches_spec. split.
  - intros (p & q & Hin & E & H). cbn [geb leb] in H.
    apply Qle_bool_iff in H. specialize (Hub p q Hin E). lra.
  - intros H. destruct Hatt as [E | (p & Hin & E)].
    + rewrite E in H. lra.
    + exists p, (maxPrecip (nh_points r)). split; [exact Hin |].
      split; [exact E |]. cbn [geb leb]. now apply Qle_bool_iff.
Qed.

Lemma forward_willRain_max_witness :
  let r := Part000.forward 0 12 (Fin (3 # 10)) [0; 3600000] [1 # 5; 2 # 5]%Q
             [20; 21]%Q None [3; 4]%Q None in
  nh_willRain r = true <-> (3 # 10 <= nh_maxPrecipitationMm r)%Q.
Proof.
  apply (forward_willRain_max 0 12 (3 # 10) [0; 3600000] [1 # 5; 2 # 5]%Q
           [20; 21]%Q None [3; 4]%Q None).
  reflexivity.
Defined.

Lemma slice_nil {A} (s e : Z) : slice (@nil A) s e = [].
Proof.
  unfold slice. now rewrite skipn_nil, firstn_nil.
Qed.

Lemma hoursNum_range (rt : runtime) (q : query) : 1 <= hoursNum rt q <= 168.
Proof. unfold hoursNum. cbv zeta. lia. Qed.

(** X9: whatever the runtime, the query and the series, the forward answer
    analyses at most [hoursNum] hours, itself between 1 and 168, and at least
    one hour when the series is not empty; its [rainProbability] is an
    integer between 0 and 100, never [NaN], even on an empty series. *)
Theorem forward_answer_bounds (rt : runtime) (q : query) (times : list Z)
    (precs temps : list Q) (humidity : option (list Q)) (windSpeed : list Q)
    (windDirection : option (list Q)) :
  let r := Part000.forward (now rt) (hoursNum rt q) (threshNum rt q) times
             precs temps humidity windSpeed windDirection in
  0 <= nh_hoursAnalyzed r <= hoursNum rt q
  /\ hoursNum rt q <= 168
  /\ (times <> [] -> 1 <= nh_hoursAnalyzed r)
  /\ exists n, nh_rainProbability r = Some (of_Z n) /\ 0 <= n <= 100.
Proof.
  intros r. pose proof (hoursNum_range rt q) as Hh.
  assert (Hne : times <> [] ->
                1 <= nh_hoursAnalyzed r <= hoursNum rt q).
  { intros Hne.
    destruct (forward_hoursAnalyzed times (now rt) (hoursNum rt q)
                (threshNum rt q) precs temps humidity windSpeed windDirection
                Hne) as [Hs Hn]; [lia |].
    fold r in Hn. lia. }
  split; [| split; [lia | split; [intros H; apply Hne in H; lia |]]].
  - destruct times as [| t ts]; [| assert (t :: ts <> []) by discriminate;
                                    apply Hne in H; lia].
    unfold r, Part000.forward. cbv zeta. cbn [nh_hoursAnalyzed].
    rewrite length_mapi, slice_nil. unfold length. simpl. lia.
  - destruct (calculateRainProbability_pos
                (slice precs (startIdx times (now rt))
                   (startIdx times (now rt) + hoursNum rt q))
                (option_map
                   (fun h => slice h (startIdx times (now rt))
                               (startIdx times (now rt) + hoursNum rt q))
                   humidity)
                (hoursNum rt q)) as (n & E & Hr); [lia |].
    exists n. split; [| exact Hr].
    unfold r, Part000.forward. cbv zeta. cbn [nh_rainProbability].
    now rewrite E.
Qed.

(** X10: on an empty series the forward answer has no point: nothing is
    analysed, [willRain] is false and the maximum precipitation is 0, in both
    versions of the handler. *)
Theorem forward_empty_series (now hoursNum : Z) (threshNum : num)
    (precs temps : list Q) (humidity : option (list Q)) (windSpeed : list Q)
    (windDirection : option (list Q)) :
  let r := Part000.forward now hoursNum threshNum [] precs temps humidity
             windSpeed windDirection in
  let r' := ServerJs.forward now hoursNum threshNum [] precs in
  nh_points r = [] /\ nh_hoursAnalyzed r = 0 /\ nh_willRain r = false
  /\ nh_maxPrecipitationMm r = 0%Q
  /\ nh_points r' = [] /\ nh_hoursAnalyzed r' = 0 /\ nh_willRain r' = false
  /\ nh_maxPrecipitationMm r' = 0%Q.
Proof.
  unfold Part000.forward, ServerJs.forward. cbv zeta.
  cbn [nh_points nh_hoursAnalyzed nh_willRain nh_maxPrecipitationMm].
  rewrite !slice_nil. repeat split.
Qed.

Lemma nth_error_range (s e : Z) (k : nat) :
  Z.of_nat k < e - s -> nth_error (range s e) k = Some (s + Z.of_nat k).
Proof.
  intros Hk. unfold range.
  rewrite nth_error_map, nth_error_seq.
  destruct (Nat.ltb_spec k (Z.to_nat (e - s))); [reflexivity | lia].
Qed.

(** Inside the clipped bounds, the sample of a slice is the sample of the
    array. *)
Lemma get_slice {A} (xs : list A) (s e k : Z) :
  0 <= s <= length xs -> s <= e ->
  0 <= k < Z.min (length xs) e - s ->
  get (slice xs s e) k = get xs (s + k).
Proof.
  intros Hs He Hk.
  pose proof (slice_samples xs s e Hs He) as E.
  apply (f_equal (fun l => nth_error l (Z.to_nat k))) in E.
  unfold Spec.samples in E. rewrite !nth_error_map in E.
  rewrite nth_error_range in E by lia. cbn [option_map] in E.
  replace (s + Z.of_nat (Z.to_nat k)) with (s + k) in E by lia.
  unfold get at 1. destruct (Z.ltb_spec k 0); [lia |].
  destruct (nth_error (slice xs s e) (Z.to_nat k)) eqn:En;
    cbn [option_map] in E; [congruence | discriminate].
Qed.

Lemma existsb_mapi_from {A B} (g : B -> bool) (f : A -> Z -> B)
    (xs : list A) : forall i,
  existsb g (mapi_from f xs i) = true
  <-> exists k x, nth_error xs k = Some x /\ g (f x (i + Z.of_nat k)) = true.
Proof.
  induction xs as [| x xs IH]; intros i; cbn [mapi_from existsb].
  - split; [discriminate | intros ([| k] & y & H & _); discriminate H].
  - rewrite orb_true_iff, IH. split.
    + intros [H | (k & y & Hk & H)].
      * exists O, x. split; [reflexivity |]. now rewrite Z.add_0_r.
      * exists (S k), y. split; [exact Hk |].
        now replace (i + Z.of_nat (S k)) with (i + 1 + Z.of_nat k) by lia.
    + intros ([| k] & y & Hk & H).
      * left. inversion Hk; subst. now rewrite Z.add_0_r in H.
      * right. exists k, y. split; [exact Hk |].
        now replace (i + 1 + Z.of_nat k) with (i + Z.of_nat (S k)) by lia.
Qed.

(** X11: in forward mode, on a non-empty series whose precipitation array
    is as long as its time array, [willRain] is true exactly when some sample
    of the analysis window [startIdx, min(length, startIdx + hoursNum))
    reaches the threshold. *)
Theorem forward_willRain_window (now hoursNum : Z) (threshNum : num)
    (times : list Z) (precs temps : list Q) (humidity : option (list Q))
    (windSpeed : list Q) (windDirection : option (list Q)) :
  times <> [] ->
  1 <= hoursNum ->
  length precs = length times ->
  let s := startIdx times now in
  let e := Z.min (length times) (s + hoursNum) in
  let r := Part000.forward now hoursNum threshNum times precs temps humidity
             windSpeed windDirection in
  nh_willRain r = true
  <-> exists j, s <= j < e /\ Spec.reaches precs threshNum j.
Proof.
  intros Hne Hh Hlen s e r.
  destruct (startIdx_spec times now Hne) as [Hs _]. fold s in Hs.
  assert (Hlt : length (slice times s (s + hoursNum)) = e - s)
    by (rewrite length_slice by lia; reflexivity).
  unfold r, Part000.forward. cbv zeta. cbn [nh_willRain]. fold s.
  unfold some_reaches, mapi. rewrite existsb_mapi_from. cbn [p_precipitation].
  unfold Spec.reaches. split.
  - intros (k & t & Hk & H). rewrite Z.add_0_l in H.
    assert (Hk' : Z.of_nat k < e - s).
    { rewrite <- Hlt. unfold length.
      apply Nat2Z.inj_lt, nth_error_Some. congruence. }
    exists (s + Z.of_nat k). split; [lia |].
    unfold value_geb, elem in H.
    rewrite get_slice in H by (rewrite ?Hlen; unfold e in *; lia).
    destruct (get precs (s + Z.of_nat k)) as [p |]; [| discriminate].
    now exists p.
  - intros (j & Hj & p & Hp & H).
    destruct (nth_error (slice times s (s + hoursNum)) (Z.to_nat (j - s)))
      as [t |] eqn:Et.
    + exists (Z.to_nat (j - s)), t. split; [exact Et |].
      rewrite Z.add_0_l. unfold value_geb, elem.
      rewrite get_slice by (rewrite ?Hlen; unfold e in *; lia).
      replace (s + Z.of_nat (Z.to_nat (j - s))) with j by lia.
      now rewrite Hp.
    + apply nth_error_None in Et. unfold length in Hlt. lia.
Qed.

Lemma forward_willRain_window_witness :
  let times := [0; 3600000; 7200000] in
  let precs := [0; 0; 1 # 2]%Q in
  let s := startIdx times 1000 in
  let e := Z.min (length times) (s + 12) in
  let r := Part000.forward 1000 12 (Fin (1 # 10)) times precs [20; 21; 22]%Q
             None [3; 4; 5]%Q None in
  nh_willRain r = true
  <-> exists j, s <= j < e /\ Spec.reaches precs (Fin (1 # 10)) j.
Proof.
  apply (forward_willRain_window 1000 12 (Fin (1 # 10)) [0; 3600000; 7200000]
           [0; 0; 1 # 2]%Q [20; 21; 22]%Q None [3; 4; 5]%Q None);
    [discriminate | lia | reflexivity].
Defined.

(** ** The answer for a requested date *)

Lemma slice_0_0 {A} (xs : list A) : slice xs 0 0 = [].
Proof.
  unfold slice, clip_index. change (0 <? 0) with false. cbv iota.
  pose proof (Zle_0_nat (List.length xs)). unfold length.
  rewrite Z.min_l by lia. reflexivity.
Qed.

(** X12: on an empty series no index is matched ([idx] stays [-1]): the
    answer has no context point, the target precipitation and temperature
    default to 0, [rainProbability] is [NaN], and [willRain] is true only
    for a threshold that is not positive. *)
Theorem specific_empty_series (threshNum : num) (targetDate : Z)
    (precs temps : list Q) (humidity : option (list Q)) (windSpeed : list Q)
    (windDirection : option (list Q)) :
  let r := Part000.specific threshNum targetDate [] precs temps humidity
             windSpeed windDirection in
  let r' := ServerJs.specific threshNum targetDate [] precs in
  idx [] targetDate = -1
  /\ sd_contextHours r = [] /\ sd_contextHours r' = []
  /\ sd_precipitationMm r = 0%Q /\ sd_precipitationMm r' = 0%Q
  /\ sd_temperature r = Some 0%Q
  /\ sd_rainProbability r = Some NaN
  /\ sd_willRain r = leb threshNum (Fin 0)
  /\ sd_willRain r' = leb threshNum (Fin 0).
Proof.
  unfold Part000.specific, ServerJs.specific. cbv zeta.
  cbn [sd_contextHours sd_precipitationMm sd_temperature sd_rainProbability
       sd_willRain].
  change (idx [] targetDate) with (-1).
  change (start (-1)) with 0. change (end_ [] (-1)) with 0.
  change (get precs (-1)) with (@None Q).
  change (get temps (-1)) with (@None Q).
  rewrite slice_0_0.
  repeat split.
Qed.

(** X13: on a non-empty series the matched sample is one of the context
    points: the point at position [idx - start] carries the matched instant
    and the precipitation of index [idx], which is the reported
    [precipitationMm] when the precipitation array is as long as the time
    array. *)
Theorem target_in_context (threshNum : num) (targetDate : Z) (times : list Z)
    (precs temps : list Q) (humidity : option (list Q)) (windSpeed : list Q)
    (windDirection : option (list Q)) :
  times <> [] ->
  let i := idx times targetDate in
  let r := Part000.specific threshNum targetDate times precs temps humidity
             windSpeed windDirection in
  exists p,
    get (sd_contextHours r) (i - start i) = Some p
    /\ get times i = Some (p_time p)
    /\ p_precipitation p = elem precs i
    /\ (length precs = length times ->
        p_precipitation p = Num (sd_precipitationMm r)).
Proof.
  intros Hne i r.
  destruct (idx_first_nearest times targetDate Hne) as [Hfirst _].
  apply first_nearest_bounds in Hfirst. fold i in Hfirst.
  pose proof (window_bounds times i Hfirst) as Hw.
  assert (Hk : nth_error (range (start i) (end_ times i))
                 (Z.to_nat (i - start i)) = Some i).
  { rewrite nth_error_range by lia. f_equal. lia. }
  unfold r, Part000.specific. cbv zeta.
  cbn [sd_contextHours sd_precipitationMm]. fold i.
  eexists. split; [| split; [| split]].
  - unfold get. destruct (Z.ltb_spec (i - start i) 0); [lia |].
    rewrite nth_error_map, Hk. reflexivity.
  - cbn [p_time]. unfold get. destruct (Z.ltb_spec i 0); [lia |].
    apply nth_error_nth'. unfold length in Hfirst. lia.
  - reflexivity.
  - intros Hlen. cbn [p_precipitation]. unfold elem.
    destruct (get_in_range precs i) as [x Hx]; [lia |].
    now rewrite Hx.
Qed.

Lemma target_in_context_witness :
  let times := [0; 3600000; 7200000] in
  let precs := [0; 1 # 2; 0]%Q in
  let i := idx times 3000000 in
  let r := Part000.specific (Fin (1 # 10)) 3000000 times precs
             [20; 21; 22]%Q None [3; 4; 5]%Q None in
  exists p,
    get (sd_contextHours r) (i - start i) = Some p
    /\ get times i = Some (p_time p)
    /\ p_precipitation p = elem precs i
    /\ (length precs = length times ->
        p_precipitation p = Num (sd_precipitationMm r)).
Proof.
  apply (target_in_context (Fin (1 # 10)) 3000000 [0; 3600000; 7200000]
           [0; 1 # 2; 0]%Q [20; 21; 22]%Q None [3; 4; 5]%Q None).
  discriminate.
Defined.

(** X14: on a non-empty series whose instants grow strictly, a target at
    or after every sample selects the last index, and a target at or before
    every sample selects index 0. *)
Theorem idx_outside_series (times : list Z) (targetDate : Z) :
  times <> [] ->
  Spec.increasing times ->
  ((forall u, In u times -> u <= targetDate) ->
   idx times targetDate = length times - 1)
  /\ ((forall u, In u times -> targetDate <= u) -> idx times targetDate = 0).
Proof.
  intros Hne Hinc.
  destruct (idx_first_nearest times targetDate Hne)
    as [(t & Hget & Hmin & Hfirst) _].
  pose proof (get_Some _ _ _ Hget) as [Hi _].
  set (i := idx times targetDate) in *.
  assert (Ht : In t times) by (apply In_get; eauto).
  split; intros Hall.
  - destruct (Z.eq_dec i (length times - 1)) as [E | Hlt]; [exact E | exfalso].
    destruct (get_in_range times (length times - 1)) as [v Hv]; [lia |].
    assert (Hv' : In v times) by (apply In_get; eauto).
    assert (t < v) by (apply (Hinc i (length times - 1)); [lia | auto..]).
    specialize (Hmin _ _ Hv). specialize (Hall v Hv') as Hv2.
    specialize (Hall t Ht). lia.
  - destruct (Z.eq_dec i 0) as [E | Hlt]; [exact E | exfalso].
    destruct (get_in_range times 0) as [u Hu]; [lia |].
    assert (Hu' : In u times) by (apply In_get; eauto).
    assert (u < t) by (apply (Hinc 0 i); [lia | auto..]).
    specialize (Hfirst 0 u ltac:(lia) Hu). specialize (Hall u Hu'). lia.
Qed.

Lemma idx_outside_series_witness :
  ((forall u, In u [1000; 2000; 3000] -> u <= 9000) ->
   idx [1000; 2000; 3000] 9000 = length [1000; 2000; 3000] - 1)
  /\ ((forall u, In u [1000; 2000; 3000] -> 9000 <= u) ->
      idx [1000; 2000; 3000] 9000 = 0).
Proof.
  apply (idx_outside_series [1000; 2000; 3000] 9000); [discriminate |].
  intros j k u v Hjk Hu Hv.
  apply get_Some in Hu as [Hj Hu]. apply get_Some in Hv as [Hk Hv].
  unfold length in Hj, Hk. cbn [List.length] in Hj, Hk.
  assert (Ej : j = 0 \/ j = 1 \/ j = 2) by lia.
  assert (Ek : k = 0 \/ k = 1 \/ k = 2) by lia.
  destruct Ej as [-> | [-> | ->]], Ek as [-> | [-> | ->]];
    simpl in Hu, Hv; inversion Hu; inversion Hv; lia.
Defined.

(** ** The two versions of the handler *)

Lemma maxPrecip_basic (points : list point) :
  maxPrecip (map basic_point points) = maxPrecip points.
Proof.
  unfold maxPrecip. generalize 0%Q.
  induction points as [| p ps IH]; intros a; [reflexivity |].
  cbn [map fold_left]. apply IH.
Qed.

Lemma some_reaches_basic (threshNum : num) (points : list point) :
  some_reaches threshNum (map basic_point points)
  = some_reaches threshNum points.
Proof.
  unfold some_reaches. induction points as [| p ps IH]; [reflexivity |].
  cbn [map existsb]. now rewrite IH.
Qed.

Lemma specific_basic (threshNum : num) (targetDate : Z) (times : list Z)
    (precs temps : list Q) (humidity : option (list Q)) (windSpeed : list Q)
    (windDirection : option (list Q)) :
  ServerJs.specific threshNum targetDate times precs
  = basic_specific
      (Part000.specific threshNum targetDate times precs temps humidity
         windSpeed windDirection).
Proof.
  unfold ServerJs.specific, Part000.specific, basic_specific. cbv zeta.
  cbn [sd_requestedDate sd_willRain sd_precipitationMm sd_thresholdMm
       sd_contextHours].
  now rewrite map_map.
Qed.

Lemma forward_basic (now hoursNum : Z) (threshNum : num) (times : list Z)
    (precs temps : list Q) (humidity : option (list Q)) (windSpeed : list Q)
    (windDirection : option (list Q)) :
  ServerJs.forward now hoursNum threshNum times precs
  = basic_next_hours
      (Part000.forward now hoursNum threshNum times precs temps humidity
         windSpeed windDirection).
Proof.
  unfold ServerJs.forward, Part000.forward, basic_next_hours. cbv zeta.
  cbn [nh_willRain nh_maxPrecipitationMm nh_hoursAnalyzed nh_thresholdMm
       nh_points].
  set (s := startIdx times now).
  set (bare := mapi (fun t i => ServerJs.bare_point t _) _).
  set (full := mapi _ _).
  assert (E : bare = map basic_point full).
  { unfold bare, full, mapi. now rewrite map_mapi_from. }
  rewrite E, maxPrecip_basic, some_reaches_basic.
  f_equal. unfold length. now rewrite length_map.
Qed.

(** X15: the handler of [server.js] is the handler of [part_000] with the
    added fields left out.  On the same runtime, query and provider outcome:
    when the later version answers with a result, the earlier one answers 200
    with the same result reduced to its own fields (the same [willRain],
    precipitation figures, threshold, hours analysed, and the instant and
    precipitation of the same points); when the later version answers with an
    error, the earlier one answers with the same error, unless that error is
    the 502 for a payload whose temperature or wind array is missing.  Both
    make the same outbound calls but for the requested variables. *)
Theorem versions_agree (rt : runtime) (q : query) (out : fetch_outcome) :
  let resp := fst (run (Part000.willitrain rt q) out) in
  let resp' := fst (run (ServerJs.willitrain rt q) out) in
  (is_error (json resp) = false ->
   resp' = ok (basic_body (json resp)) /\ status resp = 200)
  /\ (is_error (json resp) = true ->
      resp' = resp
      \/ (resp = error 502 "unexpected weather data format"
          /\ exists data h,
               out = Ok data /\ hourly data = Some h
               /\ (temperature_2m h = None \/ wind_speed_10m h = None)))
  /\ snd (run (ServerJs.willitrain rt q) out)
     = map (with_vars ServerJs.vars) (snd (run (Part000.willitrain rt q) out)).
Proof.
  cbv zeta. unfold Part000.willitrain, ServerJs.willitrain.
  destruct (negb (truthy (q_lat q)) || negb (truthy (q_lon q)));
    [cbn; split; [discriminate |]; split; [now left | reflexivity] |].
  assert (Hafter : forall target,
    let resp := Part000.after_fetch rt q target out in
    let resp' := ServerJs.after_fetch rt q target out in
    (is_error (json resp) = false ->
     resp' = ok (basic_body (json resp)) /\ status resp = 200)
    /\ (is_error (json resp) = true ->
        resp' = resp
        \/ (resp = error 502 "unexpected weather data format"
            /\ exists data h,
                 out = Ok data /\ hourly data = Some h
                 /\ (temperature_2m h = None \/ wind_speed_10m h = None)))).
  { intros target.
    unfold Part000.after_fetch, ServerJs.after_fetch, Part000.analyse,
      ServerJs.analyse.
    destruct out as [| code | data];
      try (cbn; split; [discriminate | now left]).
    destruct (hourly data) as [h |] eqn:Eh;
      [| cbn; split; [discriminate | now left]].
    destruct (time h) as [ts |];
      [| cbn; split; [discriminate | now left]].
    destruct (precipitation h) as [ps |];
      [| cbn; split; [discriminate | now left]].
    destruct (temperature_2m h) as [temps |] eqn:Et;
      [| cbn; split; [discriminate |]; intros _; right;
         split; [reflexivity |]; exists data, h; auto].
    destruct (wind_speed_10m h) as [ws |] eqn:Ew;
      [| cbn; split; [discriminate |]; intros _; right;
         split; [reflexivity |]; exists data, h; auto].
    destruct target as [d |]; cbn [fst json ok is_error basic_body status];
      (split; [intros _ | discriminate]).
    - split; [| reflexivity]. unfold ok. do 2 f_equal. apply specific_basic.
    - split; [| reflexivity]. unfold ok. do 2 f_equal. apply forward_basic. }
  destruct (truthy (q_date q)).
  - destruct (Date_parse rt (default ""%string (q_date q))) as [d |].
    + cbn [run fst snd map]. destruct (Hafter (Some d)) as [H1 H2].
      split; [exact H1 |]. split; [exact H2 | reflexivity].
    + cbn. split; [discriminate |]. split; [now left | reflexivity].
  - cbn [run fst snd map]. destruct (Hafter None) as [H1 H2].
    split; [exact H1 |]. split; [exact H2 | reflexivity].
Qed.

(** ** Outbound calls and the kind of answer *)

Lemma truthy_Some (v : option string) :
  truthy v = true -> v = Some (default ""%string v).
Proof.
  destruct v; [reflexivity | discriminate].
Qed.


Lemma Ok_complete (complete : payload -> bool) (data : payload) :
  (exists data', Ok data = Ok data' /\ complete data' = true)
  <-> complete data = true.
Proof.
  split.
  - intros (data' & E & H). now inversion E; subst.
  - intros H. now exists data.
Qed.

Lemma not_Ok_complete (complete : payload -> bool) (out : fetch_outcome) :
  (forall data, out <> Ok data) ->
  ~ exists data', out = Ok data' /\ complete data' = true.
Proof.
  intros Hout (data' & E & _). now apply (Hout data').
Qed.

(** X17: the handler answers with a result, and then with status 200,
    exactly when the coordinates are given, the date (if any) parses, the
    provider answers successfully and its payload has the hourly arrays the
    version reads: time, precipitation, temperature and wind speed for
    [part_000]; time and precipitation for [server.js].  The result is the
    one of a requested date exactly when a non-empty [date] is given. *)
Theorem result_conditions (rt : runtime) (q : query) (out : fetch_outcome) :
  let resp := fst (run (Part000.willitrain rt q) out) in
  let resp' := fst (run (ServerJs.willitrain rt q) out) in
  let valid :=
    truthy (q_lat q) = true /\ truthy (q_lon q) = true
    /\ (truthy (q_date q) = true ->
        Date_parse rt (default ""%string (q_date q)) <> None) in
  (is_error (json resp) = false <->
   valid /\ exists data, out = Ok data /\ complete_extended data = true)
  /\ (is_error (json resp') = false <->
      valid /\ exists data, out = Ok data /\ complete_basic data = true)
  /\ (is_error (json resp) = false -> status resp = 200)
  /\ (is_error (json resp') = false -> status resp' = 200)
  /\ (forall r, json resp = SpecificDate r -> truthy (q_date q) = true)
  /\ (forall r, json resp = NextHours r -> truthy (q_date q) = false).
Proof.
  cbv zeta.
  unfold Part000.willitrain, ServerJs.willitrain, Part000.after_fetch,
    ServerJs.after_fetch, Part000.analyse, ServerJs.analyse.
  destruct (truthy (q_lat q)), (truthy (q_lon q)); cbn [negb orb];
    try (cbn; repeat split; intros; try discriminate; tauto).
  destruct (truthy (q_date q));
    [destruct (Date_parse rt (default ""%string (q_date q))) as [d |] |];
    cbn [run fst];
    try (cbn; repeat split; intros; try discriminate; tauto).
  all: destruct out as [| code | data];
    [pose proof (not_Ok_complete complete_extended Rejected
                   ltac:(discriminate));
     pose proof (not_Ok_complete complete_basic Rejected ltac:(discriminate));
     cbn; repeat split; intros; try discriminate; tauto
    |pose proof (not_Ok_complete complete_extended (NotOk code)
                   ltac:(discriminate));
     pose proof (not_Ok_complete complete_basic (NotOk code)
                   ltac:(discriminate));
     cbn; repeat split; intros; try discriminate; tauto
    |].
  all: rewrite !Ok_complete; unfold complete_extended, complete_basic.
  all: destruct (hourly data) as [h |];
    [destruct (time h), (precipitation h), (temperature_2m h),
       (wind_speed_10m h) |].
  all: cbn; repeat split; intros; try reflexivity;
    solve [intuition congruence].
Qed.

(** X18: the [threshold] a caller can obtain is never [NaN] and never
    zero: whatever the runtime and the query, the effective threshold is a
    truthy number. *)
Theorem threshNum_truthy (rt : runtime) (q : query) :
  threshNum rt q <> NaN
  /\ (forall z, threshNum rt q = Fin z -> ~ (z == 0)%Q)
  /\ falsy (threshNum rt q) = false.
Proof.
  assert (H : falsy (threshNum rt q) = false).
  { unfold threshNum, or_num. cbv zeta.
    destruct (falsy (parseFloat rt (default "0.1"%string (q_threshold q))))
      eqn:E; [reflexivity | exact E]. }
  split; [| split; [| exact H]].
  - intros E. rewrite E in H. discriminate.
  - intros z E Hz. rewrite E in H. cbn [falsy] in H.
    apply Qeq_bool_iff in Hz. congruence.
Qed.

(** X19: on a non-empty series the [rainProbability] of a requested date
    is an integer between 0 and 100: the context window is never empty, so
    the denominator [end - start] is at least 1. *)
Theorem specific_probability_range (threshNum : num) (targetDate : Z)
    (times : list Z) (precs temps : list Q) (humidity : option (list Q))
    (windSpeed : list Q) (windDirection : option (list Q)) :
  times <> [] ->
  exists n,
    sd_rainProbability
      (Part000.specific threshNum targetDate times precs temps humidity
         windSpeed windDirection) = Some (of_Z n)
    /\ 0 <= n <= 100.
Proof.
  intros Hne.
  destruct (idx_first_nearest times targetDate Hne) as [Hfirst _].
  apply first_nearest_bounds in Hfirst.
  pose proof (window_bounds times _ Hfirst) as Hw.
  unfold Part000.specific. cbv zeta. cbn [sd_rainProbability].
  set (i := idx times targetDate) in *.
  destruct (calculateRainProbability_pos
              (slice precs (start i) (end_ times i))
              (option_map (fun h => slice h (start i) (end_ times i)) humidity)
              (end_ times i - start i)) as (n & E & Hr); [lia |].
  exists n. split; [now rewrite E | exact Hr].
Qed.

Lemma specific_probability_range_witness :
  exists n,
    sd_rainProbability
      (Part000.specific (Fin (1 # 10)) 0 [0; 3600000] [0; 1 # 2]%Q
         [20; 21]%Q (Some [85; 90]%Q) [3; 4]%Q None) = Some (of_Z n)
    /\ 0 <= n <= 100.
Proof.
  apply (specific_probability_range (Fin (1 # 10)) 0 [0; 3600000]
           [0; 1 # 2]%Q [20; 21]%Q (Some [85; 90]%Q) [3; 4]%Q None).
  discriminate.
Defined.

(** ** The proxy [/api/weather] *)

(** X20: the proxy makes no outbound call and answers 400 when [lat] or
    [lon] is missing or empty; otherwise it makes exactly one call, for the
    given coordinates and the variables precipitation and temperature, with a
    start or end date only when a non-empty one is given.  It passes the
    provider's payload through unchanged with status 200 exactly when the
    call succeeds; a provider status is passed on with an error payload, and
    a thrown call is answered 500. *)
Theorem weather_proxy (J : Type) (q : Weather.query) (out : Weather.outcome J) :
  let resp := fst (Weather.run (Weather.weather q) out) in
  let calls := snd (Weather.run (Weather.weather q) out) in
  let given := truthy (Weather.q_lat q) && truthy (Weather.q_lon q) in
  (given = false ->
   calls = [] /\ resp = Weather.error 400 "lat and lon are required")
  /\ (given = true ->
      (exists req,
         calls = [req]
         /\ Weather.q_lat q = Some (latitude req)
         /\ Weather.q_lon q = Some (longitude req)
         /\ hourly_vars req = "precipitation,temperature_2m"%string
         /\ timezone req = "auto"%string
         /\ start_date req
            = (if truthy (Weather.q_start q) then Weather.q_start q else None)
         /\ end_date req
            = (if truthy (Weather.q_end q) then Weather.q_end q else None))
      /\ resp = match out with
                | Weather.Rejected => Weather.error 500 "internal error"
                | Weather.NotOk code =>
                    Weather.error code "weather provider error"
                | Weather.Ok data =>
                    {| Weather.status := 200;
                       Weather.json := Weather.Passthrough data |}
                end)
  /\ (forall data,
        Weather.json resp = Weather.Passthrough data
        <-> given = true /\ out = Weather.Ok data).
Proof.
  cbv zeta. unfold Weather.weather.
  destruct (truthy (Weather.q_lat q)) eqn:Hlat,
           (truthy (Weather.q_lon q)) eqn:Hlon;
    cbn [negb orb andb Weather.run fst snd].
  2-4: (split; [intros _; split; reflexivity |];
        split; [discriminate |];
        intros data; split; [discriminate | intros [H _]; discriminate H]).
  apply truthy_Some in Hlat, Hlon.
  split; [discriminate |]. split.
  - intros _. split; [| reflexivity].
    eexists. split; [reflexivity |]. cbn. repeat split; assumption.
  - intros data. destruct out as [| code | data']; cbn; split;
      try discriminate; try (intros [_ H]; discriminate H).
    + intros E. inversion E. auto.
    + intros [_ E]. inversion E. reflexivity.
Qed.
